(** * contract-puller: a shallow embedding of [index.js]

    The development follows the layout of the script:

    - JavaScript strings, values and the handful of language operations the
      script relies on (truthiness, property access, [Object.entries],
      property assignment, [JSON.parse], [JSON.stringify]);
    - [parseSourceCode], [writeContractFiles], [saveResults] and [main],
      written in a state-and-exception monad over an abstract platform
      (file system, path module, clock and explorer);
    - the properties of the specification, numbered as in its list of
      properties (C1 to C10).

    Strings are sequences of UTF-16 code units, as in the language.  Objects
    are ordered lists of own data properties with unique names, kept in the
    order in which the language enumerates them; every name is the name of
    a data property (the accessor name [__proto__] has no special
    meaning). *)

From Stdlib Require Import Ascii String List ZArith NArith Bool Lia.
Import ListNotations.

Set Implicit Arguments.
#[local] Set Warnings "-register-all".

(** ** Strings *)

Definition code_unit := N.
Definition jsstring := list code_unit.

(** [js "abc"] is the string literal ['abc'], for literals of ASCII
    characters. *)
Definition js (s : string) : jsstring :=
  map N_of_ascii (list_ascii_of_string s).

Definition quotation_mark : code_unit := 34%N.
Definition apostrophe : code_unit := 39%N.

(** [jq] reads a literal in which every apostrophe stands for a quotation
    mark, so that JSON texts can be written inline: [jq "{'a':1}"] is the
    seven code units [{"a":1}]. *)
Definition jq (s : string) : jsstring :=
  map (fun c => if N.eqb c apostrophe then quotation_mark else c) (js s).

Fixpoint str_eqb (a b : jsstring) : bool :=
  match a, b with
  | [], [] => true
  | x :: a', y :: b' => N.eqb x y && str_eqb a' b'
  | _, _ => false
  end.

(** [s.startsWith(prefix)] *)
Fixpoint startsWith (s prefix : jsstring) : bool :=
  match prefix, s with
  | [], _ => true
  | p :: prefix', c :: s' => N.eqb c p && startsWith s' prefix'
  | _ :: _, [] => false
  end.

(** [s.slice(1, -1)]: the code units from index 1 up to, and excluding, the
    last one; empty when [s] has fewer than three code units. *)
Definition slice_1_m1 (s : jsstring) : jsstring := removelast (tl s).

Fixpoint join (sep : jsstring) (l : list jsstring) : jsstring :=
  match l with
  | [] => []
  | [x] => x
  | x :: l' => x ++ sep ++ join sep l'
  end.

Fixpoint uint_digits (u : Decimal.uint) : jsstring :=
  match u with
  | Decimal.Nil => []
  | Decimal.D0 u => 48%N :: uint_digits u
  | Decimal.D1 u => 49%N :: uint_digits u
  | Decimal.D2 u => 50%N :: uint_digits u
  | Decimal.D3 u => 51%N :: uint_digits u
  | Decimal.D4 u => 52%N :: uint_digits u
  | Decimal.D5 u => 53%N :: uint_digits u
  | Decimal.D6 u => 54%N :: uint_digits u
  | Decimal.D7 u => 55%N :: uint_digits u
  | Decimal.D8 u => 56%N :: uint_digits u
  | Decimal.D9 u => 57%N :: uint_digits u
  end.

(** Decimal numeral of a natural number, without leading zeros. *)
Definition decimal (n : N) : jsstring := uint_digits (N.to_uint n).

Definition is_digit (c : code_unit) : bool := (48 <=? c)%N && (c <=? 57)%N.

Definition digit_value (c : code_unit) : Z := Z.of_N c - 48.

(** Value of a run of decimal digits read left to right. *)
Definition digits_value (ds : jsstring) : Z :=
  fold_left (fun acc c => 10 * acc + digit_value c)%Z ds 0%Z.

(** ** Numbers

    A Number is an IEEE 754 binary64 value.  Finite non-zero values are kept
    as [m * 2^e] in the unique form with [2^52 <= m < 2^53] and
    [-1074 <= e <= 971], or [m < 2^52] and [e = -1074] for subnormals.
    [JSON.parse] never produces NaN, so it is left out. *)

Inductive double : Type :=
| DZero (neg : bool)
| DFinite (neg : bool) (m e : Z)
| DInfinity (neg : bool).

Local Open Scope Z_scope.

(** [floor (log2 (n / d))] for positive [n] and [d]. *)
Definition floor_log2_ratio (n d : Z) : Z :=
  let l := Z.log2 n - Z.log2 d in
  if (if 0 <=? l then d * 2 ^ l <=? n else d <=? n * 2 ^ (- l))
  then l else l - 1.

(** The Number nearest to the rational [n / d] ([0 <= n], [0 < d]), ties to
    even, with overflow to infinity and underflow to zero. *)
Definition round_ratio (neg : bool) (n d : Z) : double :=
  if n =? 0 then DZero neg else
  let e := Z.max (-1074) (floor_log2_ratio n d - 52) in
  let num := if e <? 0 then n * 2 ^ (- e) else n in
  let den := if e <? 0 then d else d * 2 ^ e in
  let q := num / den in
  let r := num mod den in
  let q := if (den <? 2 * r) || ((den =? 2 * r) && Z.odd q) then q + 1 else q in
  if q =? 0 then DZero neg else
  let m := if q =? 2 ^ 53 then 2 ^ 52 else q in
  let e := if q =? 2 ^ 53 then e + 1 else e in
  if 971 <? e then DInfinity neg else DFinite neg m e.

(** The Number denoted by the decimal [mant * 10^exp10]. *)
Definition decimal_to_double (neg : bool) (mant exp10 : Z) : double :=
  if 0 <=? exp10 then round_ratio neg (mant * 10 ^ exp10) 1
  else round_ratio neg mant (10 ^ (- exp10)).

(** *** [Number::toString]

    For a positive finite [x = xn / xd] the language picks integers [n], [k]
    and [s] with [k] as small as possible such that [s] has [k] digits and
    [s * 10^(n-k)] denotes [x]; among several [s] the one closest to [x]. *)

Definition lt_pow10 (xn xd n : Z) : bool :=
  if 0 <=? n then xn <? xd * 10 ^ n else xn * 10 ^ (- n) <? xd.

Fixpoint find_magnitude (fuel : nat) (xn xd n : Z) : Z :=
  match fuel with
  | O => n
  | S fuel' => if lt_pow10 xn xd n then n else find_magnitude fuel' xn xd (n + 1)
  end.

Definition denotes (x : double) (s p : Z) : bool :=
  match x, decimal_to_double false s p with
  | DFinite _ m e, DFinite _ m' e' => (m =? m') && (e =? e')
  | _, _ => false
  end.

(** Candidate with [k] digits, if one denotes [x]. *)
Definition shortest_at (x : double) (xn xd n k : Z) : option Z :=
  let p := n - k in
  let lo := if 0 <=? p then xn / (xd * 10 ^ p) else (xn * 10 ^ (- p)) / xd in
  let hi := lo + 1 in
  (* compare 2x with (2 lo + 1) * 10^p *)
  let c := if 0 <=? p then Z.compare (2 * xn) ((2 * lo + 1) * 10 ^ p * xd)
           else Z.compare (2 * xn * 10 ^ (- p)) ((2 * lo + 1) * xd) in
  match denotes x lo p, denotes x hi p with
  | true, false => Some lo
  | false, true => Some hi
  | true, true =>
      match c with
      | Lt => Some lo
      | Gt => Some hi
      | Eq => if Z.even lo then Some lo else Some hi
      end
  | false, false => None
  end.

Fixpoint shortest_from (fuel : nat) (x : double) (xn xd n k : Z) : Z * Z :=
  match fuel with
  | O => (k, if 0 <=? n - k then xn / (xd * 10 ^ (n - k))
             else (xn * 10 ^ (k - n)) / xd)
  | S fuel' =>
      match shortest_at x xn xd n k with
      | Some s => (k, s)
      | None => shortest_from fuel' x xn xd n (k + 1)
      end
  end.

Definition zeros (n : Z) : jsstring := repeat 48%N (Z.to_nat n).

Definition exponent_part (n : Z) : jsstring :=
  let e := n - 1 in
  101%N :: (if e <? 0 then 45%N else 43%N) :: decimal (Z.to_N (Z.abs e)).

Definition format_digits (ds : jsstring) (k n : Z) : jsstring :=
  if (k <=? n) && (n <=? 21) then ds ++ zeros (n - k)
  else if (0 <? n) && (n <=? 21) then
    firstn (Z.to_nat n) ds ++ 46%N :: skipn (Z.to_nat n) ds
  else if (-6 <? n) && (n <=? 0) then
    48%N :: 46%N :: zeros (- n) ++ ds
  else if k =? 1 then ds ++ exponent_part n
  else firstn 1 ds ++ 46%N :: skipn 1 ds ++ exponent_part n.

Definition positive_toString (m e : Z) : jsstring :=
  let xn := if 0 <=? e then m * 2 ^ e else m in
  let xd := if 0 <=? e then 1 else 2 ^ (- e) in
  let n := find_magnitude 640 xn xd (-324) in
  let '(k, s) := shortest_from 17 (DFinite false m e) xn xd n 1 in
  (* a candidate equal to [10^k] is the one-digit [1] one magnitude up *)
  if s =? 10 ^ k then format_digits [49%N] 1 (n + 1)
  else format_digits (decimal (Z.to_N s)) k n.

Definition Number_toString (x : double) : jsstring :=
  match x with
  | DZero _ => js "0"
  | DInfinity neg => if neg then js "-Infinity" else js "Infinity"
  | DFinite neg m e =>
      if neg then 45%N :: positive_toString m e else positive_toString m e
  end.

Local Close Scope Z_scope.

(** ** Values *)

Inductive value : Type :=
| VUndefined
| VNull
| VBool (b : bool)
| VNumber (x : double)
| VString (s : jsstring)
| VArray (elements : list value)
| VObject (properties : list (jsstring * value)).

Definition object := list (jsstring * value).

Inductive exn : Type :=
| TypeError
| SyntaxError
| RangeError
| Error (message : jsstring)
| SystemError (code : jsstring).

(** Outcome of an expression or statement that can throw. *)
Inductive result (A : Type) : Type :=
| Return (a : A)
| Throw (e : exn).

Arguments Return {A} a.
Arguments Throw {A} e.

Definition of_option (o : option jsstring) : value :=
  match o with
  | Some s => VString s
  | None => VUndefined
  end.

(** [ToBoolean] *)
Definition truthy (v : value) : bool :=
  match v with
  | VUndefined | VNull => false
  | VBool b => b
  | VNumber (DZero _) => false
  | VNumber _ => true
  | VString [] => false
  | VString _ => true
  | VArray _ | VObject _ => true
  end.

(** Truthiness of a value that is a string or absent. *)
Definition truthy_str (o : option jsstring) : bool := truthy (of_option o).

(** [typeof v === 'object'] *)
Definition typeof_object (v : value) : bool :=
  match v with
  | VNull | VArray _ | VObject _ => true
  | _ => false
  end.

(** *** Own properties

    An array index is the canonical numeral of an integer below [2^32 - 1].
    Such names are enumerated first, in ascending order; the other names
    follow in the order in which they were created. *)

Definition array_index (k : jsstring) : option N :=
  match k with
  | [] => None
  | c :: r =>
      if forallb is_digit k && (N.eqb c 48 && (length r =? 0)%nat
                                || negb (N.eqb c 48) && (length k <=? 10)%nat)
      then let n := Z.to_N (digits_value k) in
           if (n <=? 4294967294)%N then Some n else None
      else None
  end.

Fixpoint obj_get (k : jsstring) (o : object) : option value :=
  match o with
  | [] => None
  | (k', v) :: o' => if str_eqb k k' then Some v else obj_get k o'
  end.

Fixpoint obj_replace (k : jsstring) (v : value) (o : object) : object :=
  match o with
  | [] => []
  | (k', v') :: o' =>
      if str_eqb k k' then (k', v) :: o' else (k', v') :: obj_replace k v o'
  end.

(** Position of a new index-named property: before the first name that is
    not an index or is a larger index. *)
Fixpoint obj_insert_index (i : N) (k : jsstring) (v : value) (o : object) : object :=
  match o with
  | [] => [(k, v)]
  | (k', v') :: o' =>
      match array_index k' with
      | Some j => if (j <? i)%N then (k', v') :: obj_insert_index i k v o'
                  else (k, v) :: o
      | None => (k, v) :: o
      end
  end.

(** Create or overwrite the own data property [k]: an existing property
    keeps its place. *)
Definition obj_set (k : jsstring) (v : value) (o : object) : object :=
  match obj_get k o with
  | Some _ => obj_replace k v o
  | None =>
      match array_index k with
      | Some i => obj_insert_index i k v o
      | None => o ++ [(k, v)]
      end
  end.

(** [v.name] for a property [name] that no built-in prototype defines and
    that is neither [length] nor an index (here: [sources] and [content]).
    Reading a property of [null] or [undefined] throws. *)
Definition get_property (v : value) (name : jsstring) : result value :=
  match v with
  | VUndefined | VNull => Throw TypeError
  | VObject o =>
      match obj_get name o with
      | Some x => Return x
      | None => Return VUndefined
      end
  | _ => Return VUndefined
  end.

Fixpoint indexed (A : Type) (i : N) (l : list A) : list (jsstring * A) :=
  match l with
  | [] => []
  | x :: l' => (decimal i, x) :: indexed (N.succ i) l'
  end.

(** [Object.entries(v)]: own enumerable string-keyed properties. *)
Definition Object_entries (v : value) : result (list (jsstring * value)) :=
  match v with
  | VUndefined | VNull => Throw TypeError
  | VObject o => Return o
  | VArray l => Return (indexed 0 l)
  | VString s => Return (indexed 0 (map (fun c => VString [c]) s))
  | VBool _ | VNumber _ => Return []
  end.

Fixpoint set_nth (i : nat) (v : value) (l : list value) : list value :=
  match i, l with
  | O, [] => [v]
  | O, _ :: l' => v :: l'
  | S i', [] => VUndefined :: set_nth i' v []
  | S i', x :: l' => x :: set_nth i' v l'
  end.

(** An assignment to [k] reaches the accessor that [Object.prototype]
    keeps under [__proto__], unless the object has an own property of that
    name (as an object parsed from JSON can have). *)
Definition inherited_setter (k : jsstring) (o : object) : bool :=
  str_eqb k (js "__proto__")
  && match obj_get k o with
     | Some _ => false
     | None => true
     end.

(** [target[k] = v] in non-strict code, as far as [JSON.stringify] can later
    observe it.  Assignment to a primitive is ignored; an array takes an
    index (growing with holes, which serialise like [undefined]) and keeps
    any other name out of its serialised form; [length] rejects an object;
    [null] and [undefined] have no properties to assign.  On an object the
    inherited [__proto__] setter replaces the prototype and creates no own
    property, so the serialised form stays as it was. *)
Definition set_property (target : value) (k : jsstring) (v : value) : result value :=
  match target with
  | VUndefined | VNull => Throw TypeError
  | VBool _ | VNumber _ | VString _ => Return target
  | VArray l =>
      match array_index k with
      | Some i => Return (VArray (set_nth (N.to_nat i) v l))
      | None => if str_eqb k (js "length") then Throw RangeError
                else Return target
      end
  | VObject o =>
      if inherited_setter k o then Return target
      else Return (VObject (obj_set k v o))
  end.



(** ** [JSON.parse] *)

Definition is_ws (c : code_unit) : bool :=
  N.eqb c 32 || N.eqb c 9 || N.eqb c 10 || N.eqb c 13.

Fixpoint skip_ws (s : jsstring) : jsstring :=
  match s with
  | c :: s' => if is_ws c then skip_ws s' else s
  | [] => []
  end.

Definition hex_value (c : code_unit) : option N :=
  if (48 <=? c)%N && (c <=? 57)%N then Some (c - 48)%N
  else if (65 <=? c)%N && (c <=? 70)%N then Some (c - 55)%N
  else if (97 <=? c)%N && (c <=? 102)%N then Some (c - 87)%N
  else None.

Definition hex4 (a b c d : code_unit) : option code_unit :=
  match hex_value a, hex_value b, hex_value c, hex_value d with
  | Some x, Some y, Some z, Some w => Some (((x * 16 + y) * 16 + z) * 16 + w)%N
  | _, _, _, _ => None
  end.

(** [Some rest] when the text starts with [c]. *)
Definition strip_char (c : code_unit) (s : jsstring) : option jsstring :=
  match s with
  | x :: r => if N.eqb x c then Some r else None
  | [] => None
  end.

(** The character written by a two-character escape. *)
Definition simple_escape (e : code_unit) : option code_unit :=
  if N.eqb e 34 then Some 34%N
  else if N.eqb e 92 then Some 92%N
  else if N.eqb e 47 then Some 47%N
  else if N.eqb e 98 then Some 8%N
  else if N.eqb e 102 then Some 12%N
  else if N.eqb e 110 then Some 10%N
  else if N.eqb e 114 then Some 13%N
  else if N.eqb e 116 then Some 9%N
  else None.

Definition cons_char (c : code_unit) (p : option (jsstring * jsstring))
  : option (jsstring * jsstring) :=
  match p with
  | Some (t, rest) => Some (c :: t, rest)
  | None => None
  end.

(** Characters of a string literal after its opening quotation mark; yields
    the string and the text after the closing quotation mark. *)
Fixpoint parse_chars (s : jsstring) : option (jsstring * jsstring) :=
  match s with
  | [] => None
  | c :: r =>
      if N.eqb c 34 then Some ([], r)
      else if N.eqb c 92 then
        match r with
        | [] => None
        | e :: r1 =>
            if N.eqb e 117 then
              match r1 with
              | h1 :: h2 :: h3 :: h4 :: r2 =>
                  match hex4 h1 h2 h3 h4 with
                  | Some u => cons_char u (parse_chars r2)
                  | None => None
                  end
              | _ => None
              end
            else
              match simple_escape e with
              | Some u => cons_char u (parse_chars r1)
              | None => None
              end
        end
      else if (c <? 32)%N then None
      else cons_char c (parse_chars r)
  end.

Fixpoint take_digits (s : jsstring) : jsstring * jsstring :=
  match s with
  | c :: r => if is_digit c then (c :: fst (take_digits r), snd (take_digits r))
              else ([], s)
  | [] => ([], [])
  end.

(** An optional fraction: a point and at least one digit. *)
Definition parse_fraction (s : jsstring) : option (jsstring * jsstring) :=
  match strip_char 46%N s with
  | Some r =>
      match take_digits r with
      | ([], _) => None
      | (fs, rest) => Some (fs, rest)
      end
  | None => Some ([], s)
  end.

(** An optional exponent: [e] or [E], an optional sign and at least one
    digit. *)
Definition parse_exponent (s : jsstring) : option (Z * jsstring) :=
  match s with
  | c :: r =>
      if N.eqb c 101 || N.eqb c 69 then
        let signed :=
          match strip_char 45%N r with
          | Some r' => (true, r')
          | None => match strip_char 43%N r with
                    | Some r' => (false, r')
                    | None => (false, r)
                    end
          end in
        match take_digits (snd signed) with
        | ([], _) => None
        | (es, rest) =>
            Some (if fst signed then (- digits_value es)%Z else digits_value es, rest)
        end
      else Some (0%Z, s)
  | [] => Some (0%Z, s)
  end.

(** A number literal: an optional minus sign; an integer part that is [0] or
    starts with a non-zero digit; an optional fraction; an optional
    exponent. *)
Definition parse_number (s : jsstring) : option (double * jsstring) :=
  let signed := match strip_char 45%N s with
                | Some r => (true, r)
                | None => (false, s)
                end in
  match take_digits (snd signed) with
  | ([], _) => None
  | (d :: more, s2) =>
      if N.eqb d 48 && negb (length more =? 0)%nat then None else
      match parse_fraction s2 with
      | None => None
      | Some (frac, s3) =>
          match parse_exponent s3 with
          | None => None
          | Some (e, rest) =>
              Some (decimal_to_double (fst signed)
                      (digits_value ((d :: more) ++ frac))
                      (e - Z.of_nat (length frac))%Z, rest)
          end
      end
  end.

(** Outcome of a parsing function: a value and the remaining text, a syntax
    error, or recursion budget exhausted. *)
Inductive presult : Type :=
| POk (v : value) (rest : jsstring)
| PSyntax
| PFuel.

(** [true], [false], [null] or a number at the head of [s]. *)
Definition parse_literal (s : jsstring) : presult :=
  if startsWith s (js "true") then POk (VBool true) (skipn 4 s)
  else if startsWith s (js "false") then POk (VBool false) (skipn 5 s)
  else if startsWith s (js "null") then POk VNull (skipn 4 s)
  else match parse_number s with
       | Some (x, rest) => POk (VNumber x) rest
       | None => PSyntax
       end.

Fixpoint parse_value (fuel : nat) (s : jsstring) : presult :=
  match fuel with
  | O => PFuel
  | S fuel' =>
      match skip_ws s with
      | [] => PSyntax
      | c :: r =>
          if N.eqb c 123 then
            match strip_char 125%N (skip_ws r) with
            | Some r' => POk (VObject []) r'
            | None => parse_members fuel' [] r
            end
          else if N.eqb c 91 then
            match strip_char 93%N (skip_ws r) with
            | Some r' => POk (VArray []) r'
            | None => parse_elements fuel' [] r
            end
          else if N.eqb c 34 then
            match parse_chars r with
            | Some (t, rest) => POk (VString t) rest
            | None => PSyntax
            end
          else parse_literal (c :: r)
      end
  end

(** Elements of an array after the opening bracket or a comma; [acc] holds
    the elements read so far, last first. *)
with parse_elements (fuel : nat) (acc : list value) (s : jsstring) : presult :=
  match fuel with
  | O => PFuel
  | S fuel' =>
      match parse_value fuel' s with
      | POk v r =>
          match skip_ws r with
          | [] => PSyntax
          | c :: r' =>
              if N.eqb c 44 then parse_elements fuel' (v :: acc) r'
              else if N.eqb c 93 then POk (VArray (rev (v :: acc))) r'
              else PSyntax
          end
      | PSyntax => PSyntax
      | PFuel => PFuel
      end
  end

(** Members of an object after the opening brace or a comma; a repeated name
    overwrites the earlier member. *)
with parse_members (fuel : nat) (acc : object) (s : jsstring) : presult :=
  match fuel with
  | O => PFuel
  | S fuel' =>
      match strip_char 34%N (skip_ws s) with
      | None => PSyntax
      | Some r =>
          match parse_chars r with
          | None => PSyntax
          | Some (k, r1) =>
              match strip_char 58%N (skip_ws r1) with
              | None => PSyntax
              | Some r2 =>
                  match parse_value fuel' r2 with
                  | POk v r3 =>
                      match skip_ws r3 with
                      | [] => PSyntax
                      | c :: r4 =>
                          if N.eqb c 44 then parse_members fuel' (obj_set k v acc) r4
                          else if N.eqb c 125 then POk (VObject (obj_set k v acc)) r4
                          else PSyntax
                      end
                  | PSyntax => PSyntax
                  | PFuel => PFuel
                  end
              end
          end
      end
  end.

(** [JSON.parse(text)]: one value surrounded by optional white space.  The
    recursion budget is never the reason for a rejection (see
    [JSON_parse_budget]). *)
Definition JSON_parse (text : jsstring) : result value :=
  match parse_value (2 * length text + 1) text with
  | POk v rest =>
      match skip_ws rest with
      | [] => Return v
      | _ :: _ => Throw SyntaxError
      end
  | PSyntax | PFuel => Throw SyntaxError
  end.

(** ** [JSON.stringify(value, null, 2)] *)

Definition hex_digit (n : N) : code_unit :=
  if (n <? 10)%N then (48 + n)%N else (87 + n)%N.

(** The escape [\uxxxx] with lower-case hexadecimal digits. *)
Definition unicode_escape (c : code_unit) : jsstring :=
  [92; 117; hex_digit (c / 4096 mod 16); hex_digit (c / 256 mod 16);
   hex_digit (c / 16 mod 16); hex_digit (c mod 16)]%N.

Definition is_high_surrogate (c : code_unit) : bool :=
  (55296 <=? c)%N && (c <=? 56319)%N.

Definition is_low_surrogate (c : code_unit) : bool :=
  (56320 <=? c)%N && (c <=? 57343)%N.

Definition escape_unit (c : code_unit) : jsstring :=
  if N.eqb c 8 then js "\b"
  else if N.eqb c 9 then js "\t"
  else if N.eqb c 10 then js "\n"
  else if N.eqb c 12 then js "\f"
  else if N.eqb c 13 then js "\r"
  else if N.eqb c 34 then [92; 34]%N
  else if N.eqb c 92 then [92; 92]%N
  else if (c <? 32)%N || is_high_surrogate c || is_low_surrogate c
  then unicode_escape c
  else [c].

Fixpoint escape_units (s : jsstring) : jsstring :=
  match s with
  | [] => []
  | c :: r =>
      if is_high_surrogate c then
        match r with
        | d :: r' => if is_low_surrogate d then c :: d :: escape_units r'
                     else escape_unit c ++ escape_units r
        | [] => escape_unit c
        end
      else escape_unit c ++ escape_units r
  end.

(** [QuoteJSONString] *)
Definition quote_string (s : jsstring) : jsstring :=
  quotation_mark :: escape_units s ++ [quotation_mark].

Definition wrap (open close indent stepback : jsstring) (partial : list jsstring)
  : jsstring :=
  match partial with
  | [] => open ++ close
  | _ => open ++ 10%N :: indent ++ join (44%N :: 10%N :: indent) partial
              ++ 10%N :: stepback ++ close
  end.

(** [SerializeJSONProperty] with a gap of two spaces; [None] stands for
    [undefined].  A property whose value serialises to [undefined] is left
    out of an object and written [null] in an array. *)
Fixpoint serialize (stepback : jsstring) (v : value) : option jsstring :=
  let indent := stepback ++ js "  " in
  match v with
  | VUndefined => None
  | VNull => Some (js "null")
  | VBool b => Some (if b then js "true" else js "false")
  | VNumber x =>
      match x with
      | DInfinity _ => Some (js "null")
      | _ => Some (Number_toString x)
      end
  | VString s => Some (quote_string s)
  | VArray l =>
      Some (wrap (js "[") (js "]") indent stepback
              (map (fun e => match serialize indent e with
                             | Some t => t
                             | None => js "null"
                             end) l))
  | VObject o =>
      Some (wrap (js "{") (js "}") indent stepback
              (flat_map (fun kv => match serialize indent (snd kv) with
                                   | Some t => [quote_string (fst kv) ++ js ": " ++ t]
                                   | None => []
                                   end) o))
  end.

(** The argument handed on when the result of [JSON.stringify] is used. *)
Definition JSON_stringify (v : value) : value :=
  match serialize [] v with
  | Some t => VString t
  | None => VUndefined
  end.

(** ** Control: exceptions and state *)

Definition bind_result (A B : Type) (r : result A) (k : A -> result B) : result B :=
  match r with
  | Return a => k a
  | Throw e => Throw e
  end.

(** [try { body } catch (e) { handler }] for pure code. *)
Definition try_catch (A : Type) (body : result A) (handler : exn -> result A)
  : result A :=
  match body with
  | Return a => Return a
  | Throw e => handler e
  end.

(** Statements run on a state [S]; an exception leaves the effects made so
    far in place. *)
Definition M (S A : Type) : Type := S -> result A * S.

Definition ret (S A : Type) (a : A) : M S A := fun s => (Return a, s).

Definition bind (S A B : Type) (m : M S A) (k : A -> M S B) : M S B :=
  fun s => match m s with
           | (Return a, s') => k a s'
           | (Throw e, s') => (Throw e, s')
           end.

Definition lift_result (S A : Type) (r : result A) : M S A := fun s => (r, s).

(** [try { body } catch (e) { handler }] *)
Definition try_catch_M (S A : Type) (body : M S A) (handler : exn -> M S A) : M S A :=
  fun s => match body s with
           | (Return a, s') => (Return a, s')
           | (Throw e, s') => handler e s'
           end.

Arguments ret {S A} a.
Arguments bind {S A B} m k.
Arguments lift_result {S A} r.

Declare Scope js_scope.
Delimit Scope js_scope with js.

Notation "x <- m ;; k" := (bind m (fun x => k))
  (at level 61, m at next level, right associativity) : js_scope.
Notation "m ;; k" := (bind m (fun _ => k))
  (at level 61, right associativity) : js_scope.
Notation "'let?' x := r 'in' k" := (bind_result r (fun x => k))
  (at level 61, x name, r at next level, right associativity) : js_scope.

Local Open Scope js_scope.

(** ** The explorer's answer

    One element of the [result] array of a [getsourcecode] answer.  The
    explorer sends every field as a string; a field it leaves out reads as
    [undefined]. *)
Record ContractData : Type := {
  ContractName : option jsstring;
  CompilerVersion : option jsstring;
  OptimizationUsed : option jsstring;
  Runs : option jsstring;
  EVMVersion : option jsstring;
  LicenseType : option jsstring;
  Proxy : option jsstring;
  Implementation : option jsstring;
  ConstructorArguments : option jsstring;
  SourceCode : option jsstring;
  ABI : option jsstring
}.

(** [v === 'literal'] for a value that is a string or absent. *)
Definition strict_eq_str (o : option jsstring) (literal : jsstring) : bool :=
  match o with
  | Some s => str_eqb s literal
  | None => false
  end.

(** Template literal [`${x}`] for a value that is a string or absent; for a
    value that has passed a truthiness test this is the string itself. *)
Definition template (o : option jsstring) : jsstring :=
  match o with
  | Some s => s
  | None => js "undefined"
  end.

(** ** The platform

    What the script reaches through [fs], [path], [Date] and
    [fetchContract].  The state [S] stands for the file system, the clock and
    the explorer together. *)
Class Platform (S : Type) : Type := {
  path_join : jsstring -> jsstring -> jsstring;
  path_dirname : jsstring -> jsstring;
  fs_existsSync : jsstring -> S -> bool;
  (** [fs.mkdirSync(dir, { recursive: true })] *)
  fs_mkdirSync : jsstring -> M S unit;
  (** [fs.readFileSync(file, 'utf8')] *)
  fs_readFileSync : jsstring -> M S jsstring;
  (** [fs.writeFileSync(file, data, 'utf8')] *)
  fs_writeFileSync : jsstring -> value -> M S unit;
  (** [await fetchContract(apiUrl, address, apiKey, chainId)]: the first
      element of the explorer's [result] array, or the error thrown for a
      failed request, a status other than ['1'] or an empty result. *)
  fetchContract : jsstring -> jsstring -> jsstring -> jsstring -> M S ContractData;
  (** [new Date().toISOString()] *)
  Date_toISOString : S -> jsstring
}.

(** ** [parseSourceCode] *)

(** [contractName ? `${contractName}.sol` : 'Contract.sol'] *)
Definition single_file_name (contractName : option jsstring) : jsstring :=
  if truthy_str contractName then template contractName ++ js ".sol"
  else js "Contract.sol".

(** [{ [fileName]: { content: sourceCode } }] *)
Definition single_file (sourceCode : jsstring) (contractName : option jsstring)
  : value :=
  VObject [(single_file_name contractName,
            VObject [(js "content", VString sourceCode)])].

(** The statements after [JSON.parse] inside the [try] block. *)
Definition select_sources (jsonData : value) : result value :=
  let? sources := get_property jsonData (js "sources") in
  if truthy sources && typeof_object sources then Return sources
  else Return jsonData.

(** The text handed to [JSON.parse]. *)
Definition parse_input (sourceCode : jsstring) : jsstring :=
  if startsWith sourceCode (js "{{") then slice_1_m1 sourceCode else sourceCode.

Definition parseSourceCode (sourceCode contractName : option jsstring)
  : result value :=
  if negb (truthy_str sourceCode) then Throw (Error (js "Empty source code"))
  else
    let sourceCode := template sourceCode in
    if startsWith sourceCode (js "{") then
      try_catch
        (let? jsonData := JSON_parse (parse_input sourceCode) in
         select_sources jsonData)
        (fun _ => Return (single_file sourceCode contractName))
    else Return (single_file sourceCode contractName).

(** ** [writeContractFiles] *)

Record Metadata : Type := {
  contractName : value;
  compilerVersion : value;
  optimizationUsed : bool;
  runs : value;
  evmVersion : value;
  licenseType : value;
  proxy : bool;
  implementation : value;
  constructorArguments : value
}.

(** The object returned by [writeContractFiles]. *)
Record WriteResult : Type := {
  fileCount : nat;
  contractDir : jsstring;
  metadata : Metadata;
  abi : value;
  fileList : list jsstring;
  directoryName : jsstring
}.

(** The argument of [saveResults]: [{ address: a, ...result }]. *)
Record ContractResults : Type := {
  address : jsstring;
  written : WriteResult
}.

(** [fileData.content || fileData] *)
Definition file_content (fileData : value) : result value :=
  let? c := get_property fileData (js "content") in
  Return (if truthy c then c else fileData).

(** [contractName || contractData.ContractName || 'UnknownContract'] *)
Definition actual_contract_name (contractName : option jsstring)
    (contractData : ContractData) : jsstring :=
  if truthy_str contractName then template contractName
  else if truthy_str (ContractName contractData)
       then template (ContractName contractData)
       else js "UnknownContract".

Definition make_metadata (contractData : ContractData) : Metadata :=
  {| contractName := of_option (ContractName contractData);
     compilerVersion := of_option (CompilerVersion contractData);
     optimizationUsed := strict_eq_str (OptimizationUsed contractData) (js "1");
     runs := of_option (Runs contractData);
     evmVersion := of_option (EVMVersion contractData);
     licenseType := of_option (LicenseType contractData);
     proxy := strict_eq_str (Proxy contractData) (js "1");
     implementation := of_option (Implementation contractData);
     constructorArguments := of_option (ConstructorArguments contractData) |}.

Definition parse_abi (contractData : ContractData) : value :=
  if truthy_str (ABI contractData)
     && negb (strict_eq_str (ABI contractData)
                (js "Contract source code not verified"))
  then match JSON_parse (template (ABI contractData)) with
       | Return v => v
       | Throw _ => of_option (ABI contractData)
       end
  else VNull.

Section Script.

Context {S : Type} {P : Platform S}.

(** [if (!fs.existsSync(dir)) fs.mkdirSync(dir, { recursive: true })] *)
Definition ensure_dir (dir : jsstring) : M S unit :=
  fun s => if fs_existsSync dir s then (Return tt, s) else fs_mkdirSync dir s.

(** One turn of the loop over [Object.entries(sources)]. *)
Definition write_entry (outputDir : jsstring) (entry : jsstring * value) : M S unit :=
  let '(filePath, fileData) := entry in
  content <- lift_result (file_content fileData) ;;
  let fullPath := path_join outputDir filePath in
  ensure_dir (path_dirname fullPath) ;;
  fs_writeFileSync fullPath content.

(** The loop; yields [fileList]. *)
Fixpoint write_entries (outputDir : jsstring) (entries : list (jsstring * value))
  : M S (list jsstring) :=
  match entries with
  | [] => ret []
  | entry :: rest =>
      write_entry outputDir entry ;;
      fileList <- write_entries outputDir rest ;;
      ret (fst entry :: fileList)
  end.

Definition writeContractFiles (contractData : ContractData) (outputDir : jsstring)
    (contractName : option jsstring) : M S WriteResult :=
  let actualContractName := actual_contract_name contractName contractData in
  sources <- lift_result (parseSourceCode (SourceCode contractData)
                                          (ContractName contractData)) ;;
  ensure_dir outputDir ;;
  entries <- lift_result (Object_entries sources) ;;
  fileList <- write_entries outputDir entries ;;
  ret {| fileCount := length fileList;
         contractDir := outputDir;
         metadata := make_metadata contractData;
         abi := parse_abi contractData;
         fileList := fileList;
         directoryName := actualContractName |}.

(** ** [saveResults] *)

Definition metadata_value (m : Metadata) : value :=
  VObject [(js "contractName", contractName m);
           (js "compilerVersion", compilerVersion m);
           (js "optimizationUsed", VBool (optimizationUsed m));
           (js "runs", runs m);
           (js "evmVersion", evmVersion m);
           (js "licenseType", licenseType m);
           (js "proxy", VBool (proxy m));
           (js "implementation", implementation m);
           (js "constructorArguments", constructorArguments m)].

(** The object literal assigned at [allResults[contractResults.address]]. *)
Definition manifest_entry (contractResults : ContractResults) (fetchedAt : jsstring)
  : value :=
  let r := written contractResults in
  VObject [(js "address", VString (address contractResults));
           (js "contractName", contractName (metadata r));
           (js "directory", VString (directoryName r));
           (js "files", VArray (map VString (fileList r)));
           (js "metadata", metadata_value (metadata r));
           (js "abi", abi r);
           (js "fetchedAt", VString fetchedAt)].

(** Lines 231-242: the manifest read from [resultsPath], or [{}] when the
    file is missing, unreadable or not JSON. *)
Definition load_results (resultsPath : jsstring) : M S value :=
  fun s =>
    if fs_existsSync resultsPath s then
      try_catch_M
        (existing <- fs_readFileSync resultsPath ;;
         lift_result (JSON_parse existing))
        (fun _ => ret (VObject [])) s
    else (Return (VObject []), s).

(** Lines 245-253: [allResults[contractResults.address] = { ... }]. *)
Definition upsert (allResults : value) (contractResults : ContractResults)
    (fetchedAt : jsstring) : result value :=
  set_property allResults (address contractResults)
    (manifest_entry contractResults fetchedAt).

Definition saveResults (outputDir : jsstring) (contractResults : ContractResults)
  : M S unit :=
  let resultsPath := path_join outputDir (js "results.json") in
  allResults <- load_results resultsPath ;;
  fetchedAt <- (fun s => (Return (Date_toISOString s), s)) ;;
  allResults <- lift_result (upsert allResults contractResults fetchedAt) ;;
  fs_writeFileSync resultsPath (JSON_stringify allResults).

(** ** [main] *)

Record Config : Type := {
  apiKey : jsstring;
  config_address : jsstring;
  apiUrl : jsstring;
  chainId : jsstring;
  outputDir : jsstring
}.

(** One pass through the write path of [main]: the record handed to
    [writeContractFiles], the label passed as its [contractName] argument and
    the address under which [saveResults] then files the outcome. *)
Record WriteIntent : Type := {
  fetchAddress : jsstring;
  record : ContractData;
  directoryLabel : option jsstring
}.

(** The state of a run: the platform and the intents issued so far, oldest
    first. *)
Definition Run : Type := (S * list WriteIntent)%type.

Definition on_platform (A : Type) (m : M S A) : M Run A :=
  fun w => let '(r, s') := m (fst w) in (r, (s', snd w)).

Definition emit (i : WriteIntent) : M Run unit :=
  fun w => (Return tt, (fst w, snd w ++ [i])).

(** [writeContractFiles(contractData, config.outputDir, label)] followed by
    [saveResults(config.outputDir, { address, ...result })]. *)
Definition write_then_save (config : Config) (a : jsstring)
    (contractData : ContractData) (label : option jsstring) : M S unit :=
  result <- writeContractFiles contractData (outputDir config) label ;;
  saveResults (outputDir config) {| address := a; written := result |}.

(** The same, recorded in the trace of the run. *)
Definition write_and_save (config : Config) (a : jsstring)
    (contractData : ContractData) (label : option jsstring) : M Run unit :=
  emit {| fetchAddress := a; record := contractData; directoryLabel := label |} ;;
  on_platform (write_then_save config a contractData label).

(** [contractData.Proxy === '1' && contractData.Implementation] *)
Definition is_proxy (contractData : ContractData) : bool :=
  strict_eq_str (Proxy contractData) (js "1")
  && truthy_str (Implementation contractData).

(** The body of the [try] block of [main]. *)
Definition main_body (config : Config) : M Run unit :=
  contractData <- on_platform (fetchContract (apiUrl config) (config_address config)
                                 (apiKey config) (chainId config)) ;;
  let originalAddress := config_address config in
  if is_proxy contractData then
    write_and_save config originalAddress contractData
      (Some (template (ContractName contractData) ++ js "_Proxy")) ;;
    let implAddress := template (Implementation contractData) in
    contractData <- on_platform (fetchContract (apiUrl config) implAddress
                                   (apiKey config) (chainId config)) ;;
    write_and_save config implAddress contractData (ContractName contractData)
  else
    write_and_save config originalAddress contractData (ContractName contractData).

(** [main]: the exit status of the process and the final state.  A missing
    address exits with status 1 before anything is fetched; so does any
    exception raised inside the [try] block.  Console output is not part of
    the state: the fields it prints are strings or absent, so printing them
    cannot throw. *)
Definition main (config : Config) (w : Run) : nat * Run :=
  if negb (truthy (VString (config_address config))) then (1, w)
  else match main_body config w with
       | (Return _, w') => (0, w')
       | (Throw _, w') => (1, w')
       end.

(** *** What a run is observed by *)

(** [await fetchContract(config.apiUrl, a, config.apiKey, config.chainId)] *)
Definition fetch_at (config : Config) (a : jsstring) : M S ContractData :=
  fetchContract (apiUrl config) a (apiKey config) (chainId config).

(** The intents a run issues, its exit status and the state it leaves. *)
Definition intents (config : Config) (s : S) : list WriteIntent :=
  snd (snd (main config (s, []))).

Definition exit_status (config : Config) (s : S) : nat :=
  fst (main config (s, [])).

Definition final_state (config : Config) (s : S) : S :=
  fst (snd (main config (s, []))).

Definition status_of (A : Type) (r : result A) : nat :=
  match r with
  | Return _ => 0
  | Throw _ => 1
  end.

Definition proxy_intent (config : Config) (cd : ContractData) : WriteIntent :=
  {| fetchAddress := config_address config;
     record := cd;
     directoryLabel := Some (template (ContractName cd) ++ js "_Proxy") |}.

Definition plain_intent (a : jsstring) (cd : ContractData) : WriteIntent :=
  {| fetchAddress := a; record := cd; directoryLabel := ContractName cd |}.

End Script.

(** ** [parseArgs]

    The command line is [process.argv]; the environment gives each variable
    as a string or leaves it unset.  A field of the configuration is
    [undefined] once a flag at the very end of the command line has taken
    the missing argument as its value.  The help text goes to the console,
    which is not modelled; [--help] ends the process with status 0. *)

Module Cli.

Record env : Type := {
  ETHERSCAN_API_KEY : option jsstring;
  CONTRACT_ADDRESS : option jsstring;
  API_URL : option jsstring;
  CHAIN_ID : option jsstring;
  OUTPUT_DIR : option jsstring
}.

Record config : Type := {
  apiKey : option jsstring;
  address : option jsstring;
  apiUrl : option jsstring;
  chainId : option jsstring;
  outputDir : option jsstring
}.

(** [process.env.NAME || fallback] *)
Definition or_default (v : option jsstring) (fallback : jsstring) : jsstring :=
  if truthy_str v then template v else fallback.

(** The object literal on lines 11-17. *)
Definition defaults (e : env) : config :=
  {| apiKey := Some (or_default (ETHERSCAN_API_KEY e) []);
     address := Some (or_default (CONTRACT_ADDRESS e) []);
     apiUrl := Some (or_default (API_URL e) (js "https://api.etherscan.io/v2/api"));
     chainId := Some (or_default (CHAIN_ID e) (js "1"));
     outputDir := Some (or_default (OUTPUT_DIR e) (js "./contracts")) |}.

(** The fields that a flag assigns. *)
Inductive setting : Type := ApiKey | Address | ApiUrl | Output | ChainId.

(** The [case] labels of the [switch] that take a value. *)
Definition flag_of (arg : jsstring) : option setting :=
  if str_eqb arg (js "--api-key") || str_eqb arg (js "-k") then Some ApiKey
  else if str_eqb arg (js "--address") || str_eqb arg (js "-a") then Some Address
  else if str_eqb arg (js "--api-url") || str_eqb arg (js "-u") then Some ApiUrl
  else if str_eqb arg (js "--output") || str_eqb arg (js "-o") then Some Output
  else if str_eqb arg (js "--chain-id") || str_eqb arg (js "-c") then Some ChainId
  else None.

Definition is_help (arg : jsstring) : bool :=
  str_eqb arg (js "--help") || str_eqb arg (js "-h").

(** [config.field = v] *)
Definition set (f : setting) (v : option jsstring) (c : config) : config :=
  match f with
  | ApiKey => {| apiKey := v; address := address c; apiUrl := apiUrl c;
                 chainId := chainId c; outputDir := outputDir c |}
  | Address => {| apiKey := apiKey c; address := v; apiUrl := apiUrl c;
                  chainId := chainId c; outputDir := outputDir c |}
  | ApiUrl => {| apiKey := apiKey c; address := address c; apiUrl := v;
                 chainId := chainId c; outputDir := outputDir c |}
  | Output => {| apiKey := apiKey c; address := address c; apiUrl := apiUrl c;
                 chainId := chainId c; outputDir := v |}
  | ChainId => {| apiKey := apiKey c; address := address c; apiUrl := apiUrl c;
                  chainId := v; outputDir := outputDir c |}
  end.

Definition get (f : setting) (c : config) : option jsstring :=
  match f with
  | ApiKey => apiKey c
  | Address => address c
  | ApiUrl => apiUrl c
  | Output => outputDir c
  | ChainId => chainId c
  end.

(** The [default] case: an argument that is not empty and does not start
    with a dash becomes the address, unless an address is set already. *)
Definition positional (arg : jsstring) (c : config) : config :=
  if negb (truthy_str (address c)) && truthy (VString arg)
     && negb (startsWith arg (js "-"))
  then set Address (Some arg) c else c.

Inductive outcome : Type :=
| Parsed (c : config)
| Exited (status : nat).

(** The [for] loop from index [i] on, [args] being the arguments from there
    on.  A flag takes [args[++i]], which is [undefined] past the end. *)
Fixpoint parse_loop (c : config) (args : list jsstring) : outcome :=
  match args with
  | [] => Parsed c
  | arg :: rest =>
      match flag_of arg with
      | Some f =>
          match rest with
          | [] => Parsed (set f None c)
          | v :: rest' => parse_loop (set f (Some v) c) rest'
          end
      | None =>
          if is_help arg then Exited 0
          else parse_loop (positional arg c) rest
      end
  end.

(** [parseArgs()], with [args = process.argv.slice(2)]. *)
Definition parseArgs (argv : list jsstring) (e : env) : outcome :=
  parse_loop (defaults e) (skipn 2 argv).

(** A flag in its long or short spelling. *)
Definition spelled (f : setting) (long : bool) : jsstring :=
  match f, long with
  | ApiKey, true => js "--api-key"
  | ApiKey, false => js "-k"
  | Address, true => js "--address"
  | Address, false => js "-a"
  | ApiUrl, true => js "--api-url"
  | ApiUrl, false => js "-u"
  | Output, true => js "--output"
  | Output, false => js "-o"
  | ChainId, true => js "--chain-id"
  | ChainId, false => js "-c"
  end.

(** A command line made of flag and value pairs, and the assignments it
    stands for. *)
Definition render (opts : list (setting * bool * jsstring)) : list jsstring :=
  flat_map (fun o => [spelled (fst (fst o)) (snd (fst o)); snd o]) opts.

Definition apply_all (opts : list (setting * bool * jsstring)) (c : config) : config :=
  fold_left (fun c o => set (fst (fst o)) (Some (snd o)) c) opts c.

End Cli.

(** ** [httpsGet] and [fetchContract]

    One HTTPS exchange either fails with an error, which the [error]
    listener passes to [reject], or ends after a status line and a sequence
    of [data] events; each chunk is given as the string that [data += chunk]
    appends.  The script sets no encoding on the response, so that string is
    the conversion of one [Buffer] on its own: a character whose bytes are
    split between two chunks is not recovered, and the chunks here are the
    strings after that conversion. *)

Inductive exchange : Type :=
| Refused (e : exn)
| Answered (statusCode : N) (chunks : list jsstring).

Class Transport (S : Type) : Type := {
  https_get : jsstring -> S -> exchange * S
}.

(** [ToString], as applied by a template literal, on values that
    [JSON.parse] can build.  An array is joined with commas, [null] and
    [undefined] elements giving the empty string; a plain object gives
    [[object Object]], unless an own property [toString], which cannot be a
    function here, hides the inherited method: then no conversion exists. *)
Fixpoint ToString (v : value) : result jsstring :=
  match v with
  | VUndefined => Return (js "undefined")
  | VNull => Return (js "null")
  | VBool b => Return (if b then js "true" else js "false")
  | VNumber x => Return (Number_toString x)
  | VString s => Return s
  | VArray l =>
      (fix elements (l : list value) : result jsstring :=
         let element x :=
           match x with
           | VUndefined | VNull => Return []
           | _ => ToString x
           end in
         match l with
         | [] => Return []
         | [x] => element x
         | x :: rest =>
             bind_result (element x) (fun a =>
             bind_result (elements rest) (fun b =>
             Return (a ++ 44%N :: b)))
         end) l
  | VObject o =>
      match obj_get (js "toString") o with
      | Some _ => Throw TypeError
      | None => Return (js "[object Object]")
      end
  end.

(** [v === 'literal'] *)
Definition strict_eq_string (v : value) (literal : jsstring) : bool :=
  match v with
  | VString s => str_eqb s literal
  | _ => false
  end.

(** [v.length === 0], for [v] other than [null] and [undefined]: an array
    or a string has its length, an object its own property [length], a
    number or boolean none. *)
Definition length_is_zero (v : value) : bool :=
  match v with
  | VArray [] | VString [] => true
  | VObject o =>
      match obj_get (js "length") o with
      | Some (VNumber (DZero _)) => true
      | _ => false
      end
  | _ => false
  end.

(** [v[0]] *)
Definition element_0 (v : value) : result value :=
  match v with
  | VUndefined | VNull => Throw TypeError
  | VArray (x :: _) => Return x
  | VString (c :: _) => Return (VString [c])
  | VObject o =>
      match obj_get (js "0") o with
      | Some x => Return x
      | None => Return VUndefined
      end
  | _ => Return VUndefined
  end.

Module Explorer.

Section Requests.

Context {S : Type} {T : Transport S}.

(** [httpsGet(url)], awaited: the body on status 200, else the error the
    promise is rejected with. *)
Definition httpsGet (url : jsstring) : M S jsstring :=
  fun s =>
    match https_get url s with
    | (Refused e, s') => (Throw e, s')
    | (Answered statusCode chunks, s') =>
        let data := fold_left (fun data chunk => data ++ chunk) chunks [] in
        if N.eqb statusCode 200 then (Return data, s')
        else (Throw (Error (js "HTTP " ++ decimal statusCode ++ js ": " ++ data)), s')
    end.

(** The URL built on line 108. *)
Definition request_url (apiUrl address apiKey chainId : jsstring) : jsstring :=
  apiUrl ++ js "?chainid=" ++ chainId
  ++ js "&module=contract&action=getsourcecode&address=" ++ address
  ++ js "&apikey=" ++ apiKey.

(** Lines 113-123: what [fetchContract] makes of the body. *)
Definition read_response (response : jsstring) : result value :=
  let? data := JSON_parse response in
  let? status := get_property data (js "status") in
  if negb (strict_eq_string status (js "1")) then
    let? message := get_property data (js "message") in
    let? message := ToString message in
    let? result := get_property data (js "result") in
    let? result := ToString result in
    Throw (Error (js "API Error: " ++ message ++ js " - " ++ result))
  else
    let? result := get_property data (js "result") in
    if negb (truthy result) || length_is_zero result
    then Throw (Error (js "No contract data returned"))
    else element_0 result.

(** [fetchContract(apiUrl, address, apiKey, chainId)], awaited, its
    arguments being the strings that the template literal interpolates. *)
Definition fetchContract (apiUrl address apiKey chainId : jsstring) : M S value :=
  response <- httpsGet (request_url apiUrl address apiKey chainId) ;;
  lift_result (read_response response).

End Requests.

End Explorer.

(** ** An in-memory platform

    A small POSIX-like instance on which the script can be run: files and
    directories by normalised path, a clock, and an explorer given as a
    table of answers. *)

Module MemFS.

Definition slash : code_unit := 47%N.

Fixpoint split_path (cur : jsstring) (p : jsstring) : list jsstring :=
  match p with
  | [] => [rev cur]
  | c :: r => if N.eqb c slash then rev cur :: split_path [] r
              else split_path (c :: cur) r
  end.

(** Resolve [.] and [..]; [acc] holds the segments kept so far, last first. *)
Fixpoint resolve_segments (absolute : bool) (acc : list jsstring)
    (segs : list jsstring) : list jsstring :=
  match segs with
  | [] => rev acc
  | seg :: rest =>
      if str_eqb seg [] || str_eqb seg (js ".") then resolve_segments absolute acc rest
      else if str_eqb seg (js "..") then
        match acc with
        | last :: acc' =>
            if str_eqb last (js "..") then resolve_segments absolute (seg :: acc) rest
            else resolve_segments absolute acc' rest
        | [] => if absolute then resolve_segments absolute [] rest
                else resolve_segments absolute [seg] rest
        end
      else resolve_segments absolute (seg :: acc) rest
  end.

Definition ends_with_slash (p : jsstring) : bool :=
  match rev p with
  | c :: _ => N.eqb c slash
  | [] => false
  end.

(** [path.posix.normalize] *)
Definition normalize (p : jsstring) : jsstring :=
  match p with
  | [] => js "."
  | c :: _ =>
      let absolute := N.eqb c slash in
      let body := join [slash] (resolve_segments absolute [] (split_path [] p)) in
      let body := match body with
                  | [] => if absolute then [] else js "."
                  | _ => body
                  end in
      let body := if ends_with_slash p && negb (absolute && str_eqb body [])
                  then body ++ [slash] else body in
      if absolute then slash :: body else body
  end.

(** [path.posix.join(a, b)] *)
Definition join2 (a b : jsstring) : jsstring :=
  match a, b with
  | [], [] => js "."
  | [], _ => normalize b
  | _, [] => normalize a
  | _, _ => normalize (a ++ slash :: b)
  end.

Fixpoint strip_trailing_slashes (rp : jsstring) : jsstring :=
  match rp with
  | c :: r => if N.eqb c slash then strip_trailing_slashes r else rp
  | [] => []
  end.

Fixpoint drop_segment (rp : jsstring) : option jsstring :=
  match rp with
  | c :: r => if N.eqb c slash then Some rp else drop_segment r
  | [] => None
  end.

(** [path.posix.dirname] *)
Definition dirname (p : jsstring) : jsstring :=
  match p with
  | [] => js "."
  | c :: _ =>
      let absolute := N.eqb c slash in
      match drop_segment (strip_trailing_slashes (rev p)) with
      | None => if absolute then [slash] else js "."
      | Some rp =>
          match strip_trailing_slashes rp with
          | [] => if startsWith p [slash; slash] && negb (startsWith p [slash; slash; slash])
                     && (length rp =? 2)%nat then [slash; slash] else [slash]
          | rd => rev rd
          end
      end
  end.

Record state : Type := {
  files : list (jsstring * jsstring);
  dirs : list jsstring;
  clock : jsstring;
  explorer : list (jsstring * result ContractData)
}.

Fixpoint lookup (A : Type) (k : jsstring) (l : list (jsstring * A)) : option A :=
  match l with
  | [] => None
  | (k', v) :: l' => if str_eqb k k' then Some v else lookup k l'
  end.

Fixpoint store (A : Type) (k : jsstring) (v : A) (l : list (jsstring * A))
  : list (jsstring * A) :=
  match l with
  | [] => [(k, v)]
  | (k', v') :: l' => if str_eqb k k' then (k, v) :: l' else (k', v') :: store k v l'
  end.

Definition is_dir (p : jsstring) (s : state) : bool :=
  str_eqb p (js ".") || str_eqb p [slash] || existsb (str_eqb p) (dirs s).

Definition is_file (p : jsstring) (s : state) : bool :=
  match lookup p (files s) with
  | Some _ => true
  | None => false
  end.

Definition existsSync (p : jsstring) (s : state) : bool :=
  is_dir (normalize p) s || is_file (normalize p) s.

(** The directory and its ancestors. *)
Fixpoint ancestors (fuel : nat) (p : jsstring) : list jsstring :=
  match fuel with
  | O => []
  | S fuel' =>
      if str_eqb p (js ".") || str_eqb p [slash] then []
      else p :: ancestors fuel' (dirname p)
  end.

Definition mkdirSync (p : jsstring) : M state unit :=
  fun s =>
    let chain := ancestors (S (length p)) (normalize p) in
    if existsb (fun d => is_file d s) chain then (Throw (SystemError (js "EEXIST")), s)
    else (Return tt,
          {| files := files s;
             dirs := filter (fun d => negb (is_dir d s)) chain ++ dirs s;
             clock := clock s;
             explorer := explorer s |}).

Definition readFileSync (p : jsstring) : M state jsstring :=
  fun s =>
    match lookup (normalize p) (files s) with
    | Some text => (Return text, s)
    | None => (Throw (SystemError (if is_dir (normalize p) s then js "EISDIR"
                                   else js "ENOENT")), s)
    end.

(** Data other than a string is rejected, as current releases of the
    runtime do. *)
Definition writeFileSync (p : jsstring) (data : value) : M state unit :=
  fun s =>
    match data with
    | VString text =>
        let p := normalize p in
        if is_dir p s then (Throw (SystemError (js "EISDIR")), s)
        else if negb (is_dir (dirname p) s) then (Throw (SystemError (js "ENOENT")), s)
        else (Return tt,
              {| files := store p text (files s);
                 dirs := dirs s;
                 clock := clock s;
                 explorer := explorer s |})
    | _ => (Throw TypeError, s)
    end.

Definition fetch (apiUrl a apiKey chainId : jsstring) : M state ContractData :=
  fun s =>
    match lookup a (explorer s) with
    | Some r => (r, s)
    | None => (Throw (Error (js "API Error: NOTOK - Invalid Address format")), s)
    end.

#[export] Instance platform : Platform state := {|
  path_join := join2;
  path_dirname := dirname;
  fs_existsSync := existsSync;
  fs_mkdirSync := mkdirSync;
  fs_readFileSync := readFileSync;
  fs_writeFileSync := writeFileSync;
  fetchContract := fetch;
  Date_toISOString := clock
|}.

End MemFS.

(** ** Sample data for runs on the in-memory platform *)

Definition sample_record (name source flag impl : jsstring) : ContractData :=
  {| ContractName := Some name;
     CompilerVersion := Some (js "v0.8.19+commit.7dd6d404");
     OptimizationUsed := Some (js "1");
     Runs := Some (js "200");
     EVMVersion := Some (js "Default");
     LicenseType := Some (js "MIT");
     Proxy := Some flag;
     Implementation := Some impl;
     ConstructorArguments := Some [];
     SourceCode := Some source;
     ABI := Some (jq "[{'type':'fallback'}]") |}.

Definition proxy_record : ContractData :=
  sample_record (js "Vault") (js "contract Vault {}") (js "1") (js "0xIMPL").

Definition impl_record : ContractData :=
  sample_record (js "VaultLogic")
    (jq "{{'sources':{'src/VaultLogic.sol':{'content':'contract VaultLogic {}'},'lib/Math.sol':'library Math {}'}}}")
    (js "0") [].

Definition sample_config (a : jsstring) : Config :=
  {| apiKey := js "KEY";
     config_address := a;
     apiUrl := js "https://api.etherscan.io/v2/api";
     chainId := js "1";
     outputDir := js "./contracts" |}.

Definition world (answers : list (jsstring * result ContractData)) : MemFS.state :=
  {| MemFS.files := [];
     MemFS.dirs := [];
     MemFS.clock := js "2024-01-01T00:00:00.000Z";
     MemFS.explorer := answers |}.

(** The explorer knows the proxy and its implementation. *)
Definition proxy_world : MemFS.state :=
  world [(js "0xPROXY", Return proxy_record); (js "0xIMPL", Return impl_record)].

(** The explorer knows the proxy only: the second fetch fails. *)
Definition failing_world : MemFS.state :=
  world [(js "0xPROXY", Return proxy_record)].

(** The state of [failing_world] once the proxy's files and manifest entry
    are written. *)
Definition after_proxy : MemFS.state :=
  snd (write_then_save (P := MemFS.platform) (sample_config (js "0xPROXY"))
         (js "0xPROXY") proxy_record (Some (js "Vault_Proxy")) failing_world).

Definition sample_written : WriteResult :=
  {| fileCount := 1;
     contractDir := js "./contracts";
     metadata := {| contractName := VString (js "Token");
                    compilerVersion := VString (js "v0.8.19");
                    optimizationUsed := true;
                    runs := VString (js "200");
                    evmVersion := VString (js "Default");
                    licenseType := VString (js "MIT");
                    proxy := false;
                    implementation := VString [];
                    constructorArguments := VString [] |};
     abi := VNull;
     fileList := [js "Token.sol"];
     directoryName := js "Token" |}.

Definition corrupted_state : MemFS.state :=
  {| MemFS.files := [(js "contracts/results.json", js "{ 'truncated")];
     MemFS.dirs := [js "contracts"];
     MemFS.clock := js "2024-01-01T00:00:00.000Z";
     MemFS.explorer := [] |}.


(** ** An in-memory transport

    The exchanges are looked up by URL; an unknown URL is refused. *)

Module MemNet.

Definition state : Type := list (jsstring * exchange).

Definition get (url : jsstring) (s : state) : exchange * state :=
  (match MemFS.lookup url s with
   | Some x => x
   | None => Refused (SystemError (js "ENOTFOUND"))
   end, s).

#[export] Instance transport : Transport state := {| https_get := get |}.

End MemNet.

Definition sample_env : Cli.env :=
  {| Cli.ETHERSCAN_API_KEY := Some (js "ENVKEY");
     Cli.CONTRACT_ADDRESS := None;
     Cli.API_URL := Some [];
     Cli.CHAIN_ID := Some (js "137");
     Cli.OUTPUT_DIR := None |}.

Definition sample_url : jsstring :=
  Explorer.request_url (js "https://api.etherscan.io/v2/api") (js "0xAB")
    (js "KEY") (js "1").

(** The explorer answers the sample request with the given status and
    chunks. *)
Definition net (statusCode : N) (chunks : list jsstring) : MemNet.state :=
  [(sample_url, Answered statusCode chunks)].

(** A contract the explorer has no verified source for. *)
Definition unverified_record : ContractData :=
  {| ContractName := Some [];
     CompilerVersion := Some [];
     OptimizationUsed := Some [];
     Runs := Some [];
     EVMVersion := Some [];
     LicenseType := Some (js "Unknown");
     Proxy := Some (js "0");
     Implementation := Some [];
     ConstructorArguments := Some [];
     SourceCode := Some [];
     ABI := Some (js "Contract source code not verified") |}.

Definition unverified_world : MemFS.state :=
  world [(js "0xDEAD", Return unverified_record)].

(** The output directory's name is taken by a file: no source file can be
    written below it. *)
Definition blocked_world : MemFS.state :=
  {| MemFS.files := [(js "contracts", js "not a directory")];
     MemFS.dirs := [];
     MemFS.clock := js "2024-01-01T00:00:00.000Z";
     MemFS.explorer := [(js "0xPROXY", Return proxy_record);
                        (js "0xIMPL", Return impl_record)] |}.

(** A manifest file with the given text. *)
Definition manifest_state (text : jsstring) : MemFS.state :=
  {| MemFS.files := [(js "contracts/results.json", text)];
     MemFS.dirs := [js "contracts"];
     MemFS.clock := js "2024-01-01T00:00:00.000Z";
     MemFS.explorer := [] |}.

(** * Properties *)

(** ** Strings and objects *)

Lemma str_eqb_eq (a b : jsstring) : str_eqb a b = true <-> a = b.
Proof.
  revert b; induction a as [|x a IH]; intros [|y b]; simpl;
    try (split; [discriminate | congruence]); try tauto.
  rewrite andb_true_iff, N.eqb_eq, IH.
  split; [intros [-> ->]; reflexivity | intros H; inversion H; auto].
Qed.

Lemma str_eqb_refl (a : jsstring) : str_eqb a a = true.
Proof. apply str_eqb_eq; reflexivity. Qed.

Lemma str_eqb_neq (a b : jsstring) : a <> b -> str_eqb a b = false.
Proof.
  intros H; destruct (str_eqb a b) eqn:E; [|reflexivity].
  apply str_eqb_eq in E; contradiction.
Qed.

Lemma startsWith_nil (s : jsstring) : startsWith s [] = true.
Proof. now destruct s. Qed.

Lemma startsWith_head (s p : jsstring) (c : code_unit) :
  startsWith s (c :: p) = true -> startsWith s [c] = true.
Proof.
  destruct s as [|x s]; simpl; [discriminate|].
  rewrite andb_true_iff. intros [-> _]. now rewrite startsWith_nil.
Qed.

Lemma startsWith_app (p s : jsstring) : startsWith (p ++ s) p = true.
Proof. induction p; simpl; [now destruct s|]. now rewrite N.eqb_refl. Qed.

Lemma slice_1_m1_wrap (c d : code_unit) (s : jsstring) :
  slice_1_m1 (c :: s ++ [d]) = s.
Proof. unfold slice_1_m1; simpl. apply removelast_last. Qed.

Lemma obj_set_nil (k : jsstring) (v : value) : obj_set k v [] = [(k, v)].
Proof. unfold obj_set; simpl. destruct (array_index k); reflexivity. Qed.

Lemma obj_get_replace_same (k : jsstring) (v x : value) (o : object) :
  obj_get k o = Some x -> obj_get k (obj_replace k v o) = Some v.
Proof.
  induction o as [|[k' v'] o IH]; simpl; [discriminate|].
  destruct (str_eqb k k') eqn:E; simpl; rewrite E; auto.
Qed.


Lemma obj_get_insert_index_same (i : N) (k : jsstring) (v : value) (o : object) :
  obj_get k o = None -> obj_get k (obj_insert_index i k v o) = Some v.
Proof.
  induction o as [|[k' v'] o IH]; simpl.
  - now rewrite str_eqb_refl.
  - destruct (str_eqb k k') eqn:E; [discriminate|]. intros H.
    destruct (array_index k') as [j|]; [destruct (j <? i)%N|]; simpl;
      rewrite ?E, ?str_eqb_refl; auto.
Qed.


Lemma obj_get_app (k : jsstring) (o o' : object) :
  obj_get k (o ++ o') = match obj_get k o with
                        | Some x => Some x
                        | None => obj_get k o'
                        end.
Proof.
  induction o as [|[k' v'] o IH]; simpl; [reflexivity|].
  destruct (str_eqb k k'); auto.
Qed.

(** Reading back the property just assigned. *)
Lemma obj_get_set_same (k : jsstring) (v : value) (o : object) :
  obj_get k (obj_set k v o) = Some v.
Proof.
  unfold obj_set. destruct (obj_get k o) eqn:G.
  - eapply obj_get_replace_same; eauto.
  - destruct (array_index k).
    + now apply obj_get_insert_index_same.
    + rewrite obj_get_app, G. simpl. now rewrite str_eqb_refl.
Qed.













(** Property names stay unique under assignment. *)
Lemma obj_get_absent_iff (k : jsstring) (o : object) :
  obj_get k o = None <-> ~ In k (map fst o).
Proof.
  induction o as [|[k' v'] o IH]; simpl; [tauto|].
  destruct (str_eqb k k') eqn:E.
  - apply str_eqb_eq in E. subst k'. split; [discriminate | tauto].
  - rewrite IH. split; [|tauto]. intros H [H'|H']; [|tauto].
    subst k'. now rewrite str_eqb_refl in E.
Qed.

Lemma obj_replace_names (k : jsstring) (v : value) (o : object) :
  map fst (obj_replace k v o) = map fst o.
Proof.
  induction o as [|[k' v'] o IH]; simpl; [reflexivity|].
  destruct (str_eqb k k'); simpl; congruence.
Qed.

Lemma obj_insert_index_names (i : N) (k k0 : jsstring) (v : value) (o : object) :
  In k0 (map fst (obj_insert_index i k v o)) <-> k0 = k \/ In k0 (map fst o).
Proof.
  induction o as [|[k' v'] o IH]; simpl; [intuition congruence|].
  destruct (array_index k') as [j|]; [destruct (j <? i)%N|]; simpl;
    rewrite ?IH; intuition congruence.
Qed.

Lemma obj_insert_index_NoDup (i : N) (k : jsstring) (v : value) (o : object) :
  ~ In k (map fst o) -> NoDup (map fst o) ->
  NoDup (map fst (obj_insert_index i k v o)).
Proof.
  induction o as [|[k' v'] o IH]; simpl; intros NI ND.
  - constructor; [tauto | constructor].
  - inversion ND as [|? ? NI' ND']; subst.
    destruct (array_index k') as [j|]; [destruct (j <? i)%N|]; simpl.
    + constructor; [|apply IH; tauto].
      rewrite obj_insert_index_names. intuition congruence.
    + constructor; [simpl; tauto | assumption].
    + constructor; [simpl; tauto | assumption].
Qed.

Lemma obj_set_NoDup (k : jsstring) (v : value) (o : object) :
  NoDup (map fst o) -> NoDup (map fst (obj_set k v o)).
Proof.
  intros ND. unfold obj_set. destruct (obj_get k o) eqn:G.
  - now rewrite obj_replace_names.
  - apply obj_get_absent_iff in G. destruct (array_index k).
    + now apply obj_insert_index_NoDup.
    + rewrite map_app. simpl. apply NoDup_app; [assumption | repeat constructor; tauto |].
      intros x Hx [<-|[]]. contradiction.
Qed.

(** ** The parser

    Each parsing function consumes at least one code unit, and twice the
    length of the text (plus one) is enough budget for [parse_value]. *)

Lemma skip_ws_length (s : jsstring) : length (skip_ws s) <= length s.
Proof.
  induction s as [|c s IH]; simpl; [lia|].
  destruct (is_ws c); simpl; lia.
Qed.

Lemma strip_char_length (c : code_unit) (s r : jsstring) :
  strip_char c s = Some r -> length s = S (length r).
Proof.
  destruct s as [|x s]; simpl; [discriminate|].
  destruct (N.eqb x c); [|discriminate]. now intros [= ->].
Qed.

Lemma parse_chars_length (s t rest : jsstring) :
  parse_chars s = Some (t, rest) -> length rest < length s.
Proof.
  remember (length s) as n eqn:L.
  assert (B : length s <= n) by lia. clear L.
  revert s t rest B. induction n as [|n IH]; intros s t rest B.
  - destruct s; simpl in *; [discriminate | lia].
  - destruct s as [|c r]; simpl; [discriminate|]. simpl in B.
    destruct (N.eqb c 34); [intros [= _ <-]; lia|].
    destruct (N.eqb c 92).
    + destruct r as [|e r1]; [discriminate|]. simpl in B.
      destruct (N.eqb e 117).
      * destruct r1 as [|h1 [|h2 [|h3 [|h4 r2]]]]; try discriminate.
        simpl in B. destruct (hex4 h1 h2 h3 h4); [|discriminate].
        destruct (parse_chars r2) as [[t' rest']|] eqn:E; simpl; [|discriminate].
        intros [= _ <-]. apply IH in E; simpl; lia.
      * destruct (simple_escape e); [|discriminate].
        destruct (parse_chars r1) as [[t' rest']|] eqn:E; simpl; [|discriminate].
        intros [= _ <-]. apply IH in E; simpl; lia.
    + destruct (c <? 32)%N; [discriminate|].
      destruct (parse_chars r) as [[t' rest']|] eqn:E; simpl; [|discriminate].
      intros [= _ <-]. apply IH in E; simpl; lia.
Qed.

Lemma take_digits_length (s : jsstring) :
  length s = length (fst (take_digits s)) + length (snd (take_digits s)).
Proof.
  induction s as [|c s IH]; simpl; [reflexivity|].
  destruct (is_digit c); simpl; lia.
Qed.

Lemma parse_fraction_length (s fs rest : jsstring) :
  parse_fraction s = Some (fs, rest) -> length rest <= length s.
Proof.
  unfold parse_fraction. destruct (strip_char 46%N s) as [r|] eqn:E.
  - apply strip_char_length in E. pose proof (take_digits_length r) as L.
    destruct (take_digits r) as [[|d ds] rest']; [discriminate|].
    simpl in L. intros [= _ <-]. lia.
  - intros [= _ <-]. lia.
Qed.

Lemma parse_exponent_length (s rest : jsstring) (e : Z) :
  parse_exponent s = Some (e, rest) -> length rest <= length s.
Proof.
  unfold parse_exponent. destruct s as [|c r]; [intros [= _ <-]; lia|].
  destruct (N.eqb c 101 || N.eqb c 69); [|intros [= _ <-]; lia].
  set (signed := match strip_char 45%N r with
                 | Some r' => (true, r')
                 | None => match strip_char 43%N r with
                           | Some r' => (false, r')
                           | None => (false, r)
                           end
                 end).
  assert (L : length (snd signed) <= length r).
  { subst signed. destruct (strip_char 45%N r) eqn:E1.
    - apply strip_char_length in E1. simpl. lia.
    - destruct (strip_char 43%N r) eqn:E2; simpl; [|lia].
      apply strip_char_length in E2. lia. }
  pose proof (take_digits_length (snd signed)) as T.
  destruct (take_digits (snd signed)) as [[|d ds] rest']; [discriminate|].
  simpl in T. intros [= _ <-]. simpl. lia.
Qed.

Lemma parse_number_length (s rest : jsstring) (x : double) :
  parse_number s = Some (x, rest) -> length rest < length s.
Proof.
  unfold parse_number.
  set (signed := match strip_char 45%N s with
                 | Some r => (true, r)
                 | None => (false, s)
                 end).
  assert (L : length (snd signed) <= length s).
  { subst signed. destruct (strip_char 45%N s) eqn:E; simpl; [|lia].
    apply strip_char_length in E. lia. }
  pose proof (take_digits_length (snd signed)) as T.
  destruct (take_digits (snd signed)) as [[|d ds] s2]; [discriminate|].
  simpl in T. destruct (N.eqb d 48 && negb (length ds =? 0)); [discriminate|].
  destruct (parse_fraction s2) as [[frac s3]|] eqn:F; [|discriminate].
  destruct (parse_exponent s3) as [[e rest']|] eqn:X; [|discriminate].
  apply parse_fraction_length in F. apply parse_exponent_length in X.
  intros [= _ <-]. lia.
Qed.

Lemma startsWith_length (s p : jsstring) :
  startsWith s p = true -> length p <= length s.
Proof.
  revert s; induction p as [|c p IH]; intros [|x s]; simpl; try lia; try discriminate.
  rewrite andb_true_iff. intros [_ H]. apply IH in H. lia.
Qed.

Lemma parse_literal_length (s r : jsstring) (v : value) :
  parse_literal s = POk v r -> length r < length s.
Proof.
  unfold parse_literal.
  destruct (startsWith s (js "true")) eqn:E1.
  { apply startsWith_length in E1. intros H.
    replace r with (skipn 4 s) by congruence. rewrite length_skipn.
    simpl in E1. lia. }
  destruct (startsWith s (js "false")) eqn:E2.
  { apply startsWith_length in E2. intros H.
    replace r with (skipn 5 s) by congruence. rewrite length_skipn.
    simpl in E2. lia. }
  destruct (startsWith s (js "null")) eqn:E3.
  { apply startsWith_length in E3. intros H.
    replace r with (skipn 4 s) by congruence. rewrite length_skipn.
    simpl in E3. lia. }
  destruct (parse_number s) as [[x rest]|] eqn:E; [|discriminate].
  apply parse_number_length in E. intros [= _ <-]. exact E.
Qed.

Lemma parse_literal_budget (s : jsstring) : parse_literal s <> PFuel.
Proof.
  unfold parse_literal.
  repeat match goal with
         | |- context [if ?b then _ else _] => destruct b; [discriminate|]
         end.
  destruct (parse_number s) as [[x rest]|]; discriminate.
Qed.

(** What is left after a value, an element list or a member list is shorter
    than the text it was read from. *)
Lemma parse_rest_shorter (n : nat) :
  (forall s v r, parse_value n s = POk v r -> length r < length s)
  /\ (forall acc s v r, parse_elements n acc s = POk v r -> length r < length s)
  /\ (forall acc s v r, parse_members n acc s = POk v r -> length r < length s).
Proof.
  induction n as [|n (IHv & IHe & IHm)];
    [repeat split; intros; discriminate|].
  repeat split.
  - intros s v r. simpl. pose proof (skip_ws_length s) as W.
    destruct (skip_ws s) as [|c t]; [discriminate|]. simpl in W.
    destruct (N.eqb c 123).
    { pose proof (skip_ws_length t) as W'.
      destruct (strip_char 125%N (skip_ws t)) as [r'|] eqn:E.
      - apply strip_char_length in E. intros [= _ <-]. lia.
      - intros H. apply IHm in H. lia. }
    destruct (N.eqb c 91).
    { pose proof (skip_ws_length t) as W'.
      destruct (strip_char 93%N (skip_ws t)) as [r'|] eqn:E.
      - apply strip_char_length in E. intros [= _ <-]. lia.
      - intros H. apply IHe in H. lia. }
    destruct (N.eqb c 34).
    { destruct (parse_chars t) as [[u rest]|] eqn:E; [|discriminate].
      apply parse_chars_length in E. intros [= _ <-]. lia. }
    intros H. apply parse_literal_length in H. simpl in H. lia.
  - intros acc s v r. simpl.
    destruct (parse_value n s) as [v' r'| |] eqn:E; try discriminate.
    apply IHv in E. pose proof (skip_ws_length r') as W.
    destruct (skip_ws r') as [|c t]; [discriminate|]. simpl in W.
    destruct (N.eqb c 44); [intros H; apply IHe in H; lia|].
    destruct (N.eqb c 93); [|discriminate]. intros [= _ <-]. lia.
  - intros acc s v r. simpl. pose proof (skip_ws_length s) as W.
    destruct (strip_char 34%N (skip_ws s)) as [t|] eqn:E1; [|discriminate].
    apply strip_char_length in E1.
    destruct (parse_chars t) as [[k r1]|] eqn:E2; [|discriminate].
    apply parse_chars_length in E2. pose proof (skip_ws_length r1) as W1.
    destruct (strip_char 58%N (skip_ws r1)) as [r2|] eqn:E3; [|discriminate].
    apply strip_char_length in E3.
    destruct (parse_value n r2) as [v' r3| |] eqn:E4; try discriminate.
    apply IHv in E4. pose proof (skip_ws_length r3) as W3.
    destruct (skip_ws r3) as [|c r4]; [discriminate|]. simpl in W3.
    destruct (N.eqb c 44); [intros H; apply IHm in H; lia|].
    destruct (N.eqb c 125); [|discriminate]. intros [= _ <-]. lia.
Qed.

(** The budget given by [JSON_parse] is never exhausted. *)
Lemma parse_budget (n : nat) :
  (forall s, 2 * length s < n -> parse_value n s <> PFuel)
  /\ (forall acc s, 2 * length s + 1 < n -> parse_elements n acc s <> PFuel)
  /\ (forall acc s, 2 * length s + 1 < n -> parse_members n acc s <> PFuel).
Proof.
  induction n as [|n (IHv & IHe & IHm)]; [repeat split; intros; lia|].
  destruct (parse_rest_shorter n) as (Rv & _ & _).
  repeat split.
  - intros s B. simpl. pose proof (skip_ws_length s) as W.
    destruct (skip_ws s) as [|c t]; [discriminate|]. simpl in W.
    destruct (N.eqb c 123).
    { destruct (strip_char 125%N (skip_ws t)); [discriminate|]. apply IHm. lia. }
    destruct (N.eqb c 91).
    { destruct (strip_char 93%N (skip_ws t)); [discriminate|]. apply IHe. lia. }
    destruct (N.eqb c 34).
    { destruct (parse_chars t) as [[u rest]|]; discriminate. }
    apply parse_literal_budget.
  - intros acc s B. simpl.
    destruct (parse_value n s) as [v' r'| |] eqn:E; try discriminate.
    + apply Rv in E. pose proof (skip_ws_length r') as W.
      destruct (skip_ws r') as [|c t]; [discriminate|]. simpl in W.
      destruct (N.eqb c 44); [apply IHe; lia|].
      destruct (N.eqb c 93); discriminate.
    + exfalso. revert E. apply IHv. lia.
  - intros acc s B. simpl. pose proof (skip_ws_length s) as W.
    destruct (strip_char 34%N (skip_ws s)) as [t|] eqn:E1; [|discriminate].
    apply strip_char_length in E1.
    destruct (parse_chars t) as [[k r1]|] eqn:E2; [|discriminate].
    apply parse_chars_length in E2. pose proof (skip_ws_length r1) as W1.
    destruct (strip_char 58%N (skip_ws r1)) as [r2|] eqn:E3; [|discriminate].
    apply strip_char_length in E3.
    destruct (parse_value n r2) as [v' r3| |] eqn:E4; try discriminate.
    + apply Rv in E4. pose proof (skip_ws_length r3) as W3.
      destruct (skip_ws r3) as [|c r4]; [discriminate|]. simpl in W3.
      destruct (N.eqb c 44); [apply IHm; lia|].
      destruct (N.eqb c 125); discriminate.
    + exfalso. revert E4. apply IHv. lia.
Qed.

(** [JSON_parse] rejects a text only for its syntax. *)
Lemma JSON_parse_budget (text : jsstring) :
  parse_value (2 * length text + 1) text <> PFuel.
Proof. apply (parse_budget (2 * length text + 1)). lia. Qed.

(** Member lists yield objects. *)
Lemma parse_members_object (n : nat) (acc : object) (s r : jsstring) (v : value) :
  parse_members n acc s = POk v r -> exists o, v = VObject o.
Proof.
  revert acc s. induction n as [|n IH]; intros acc s; simpl; [discriminate|].
  destruct (strip_char 34%N (skip_ws s)) as [t|]; [|discriminate].
  destruct (parse_chars t) as [[k r1]|]; [|discriminate].
  destruct (strip_char 58%N (skip_ws r1)) as [r2|]; [|discriminate].
  destruct (parse_value n r2) as [v' r3| |]; try discriminate.
  destruct (skip_ws r3) as [|c r4]; [discriminate|].
  destruct (N.eqb c 44); [apply IH|].
  destruct (N.eqb c 125); [|discriminate]. intros [= <- _]. eauto.
Qed.

Lemma parse_value_brace (n : nat) (t r : jsstring) (v : value) :
  parse_value (S n) (123%N :: t) = POk v r -> exists o, v = VObject o.
Proof.
  cbn [parse_value skip_ws]. change (is_ws 123%N) with false. cbv iota.
  change (123 =? 123)%N with true. cbv iota.
  destruct (strip_char 125%N (skip_ws t)) as [r'|].
  - intros [= <- _]. eauto.
  - apply parse_members_object.
Qed.

(** A text whose first code unit is an opening brace parses to an object or
    not at all. *)
Lemma JSON_parse_brace (text : jsstring) (v : value) :
  startsWith text (js "{") = true -> JSON_parse text = Return v ->
  exists o, v = VObject o.
Proof.
  unfold JSON_parse. destruct text as [|c t]; [discriminate|].
  cbn [startsWith js map list_ascii_of_string]. rewrite andb_true_iff.
  intros [C _]. apply N.eqb_eq in C. subst c.
  rewrite Nat.add_1_r. change (N_of_ascii "{") with 123%N.
  match goal with
  | |- context [parse_value ?n ?s] =>
      destruct (parse_value n s) as [v' r| |] eqn:E; try discriminate
  end.
  destruct (skip_ws r); [|discriminate]. intros [= <-].
  eapply parse_value_brace; eauto.
Qed.

(** Member lists yield objects whose names are unique. *)
Lemma parse_members_unique (n : nat) (acc : object) (s r : jsstring) (v : value) :
  NoDup (map fst acc) -> parse_members n acc s = POk v r ->
  exists o, v = VObject o /\ NoDup (map fst o).
Proof.
  revert acc s. induction n as [|n IH]; intros acc s ND; simpl; [discriminate|].
  destruct (strip_char 34%N (skip_ws s)) as [t|]; [|discriminate].
  destruct (parse_chars t) as [[k r1]|]; [|discriminate].
  destruct (strip_char 58%N (skip_ws r1)) as [r2|]; [|discriminate].
  destruct (parse_value n r2) as [v' r3| |]; try discriminate.
  destruct (skip_ws r3) as [|c r4]; [discriminate|].
  destruct (N.eqb c 44); [apply IH; now apply obj_set_NoDup|].
  destruct (N.eqb c 125); [|discriminate]. intros [= <- _].
  eexists; split; [reflexivity | now apply obj_set_NoDup].
Qed.

Lemma parse_elements_array (n : nat) (acc : list value) (s r : jsstring) (v : value) :
  parse_elements n acc s = POk v r -> exists l, v = VArray l.
Proof.
  revert acc s. induction n as [|n IH]; intros acc s; simpl; [discriminate|].
  destruct (parse_value n s) as [v' r'| |]; try discriminate.
  destruct (skip_ws r') as [|c t]; [discriminate|].
  destruct (N.eqb c 44); [apply IH|].
  destruct (N.eqb c 93); [|discriminate]. intros [= <- _]. eauto.
Qed.

Lemma parse_literal_not_object (s r : jsstring) (o : object) :
  parse_literal s <> POk (VObject o) r.
Proof.
  unfold parse_literal.
  repeat match goal with
         | |- context [if ?b then _ else _] => destruct b; [discriminate|]
         end.
  destruct (parse_number s) as [[x rest]|]; discriminate.
Qed.

Lemma parse_value_unique (n : nat) (s r : jsstring) (o : object) :
  parse_value n s = POk (VObject o) r -> NoDup (map fst o).
Proof.
  destruct n as [|n]; simpl; [discriminate|].
  destruct (skip_ws s) as [|c t]; [discriminate|].
  destruct (N.eqb c 123).
  { destruct (strip_char 125%N (skip_ws t)) as [r'|].
    - intros [= <- _]. constructor.
    - intros H. destruct (parse_members_unique n [] t (NoDup_nil _) H)
        as (o' & [= ->] & ND). exact ND. }
  destruct (N.eqb c 91).
  { destruct (strip_char 93%N (skip_ws t)) as [r'|]; [discriminate|].
    intros H. destruct (parse_elements_array _ _ _ H) as [l E]. discriminate. }
  destruct (N.eqb c 34).
  { destruct (parse_chars t) as [[u rest]|]; discriminate. }
  intros H. now apply parse_literal_not_object in H.
Qed.

(** The names of a parsed object are unique. *)
Lemma JSON_parse_unique_names (text : jsstring) (o : object) :
  JSON_parse text = Return (VObject o) -> NoDup (map fst o).
Proof.
  unfold JSON_parse.
  destruct (parse_value (2 * length text + 1) text) as [v r| |] eqn:E;
    try discriminate.
  destruct (skip_ws r); [|discriminate]. intros [= ->].
  eapply parse_value_unique; eauto.
Qed.

(** ** [parseSourceCode] *)

Lemma truthy_nonempty (s : jsstring) : s <> [] -> truthy (VString s) = true.
Proof. destruct s; [contradiction | reflexivity]. Qed.

Lemma startsWith_nonempty (s p : jsstring) :
  p <> [] -> startsWith s p = true -> s <> [].
Proof. destruct p; [contradiction|]. destruct s; [discriminate | discriminate]. Qed.

(** For a non-empty source the guard on line 128 is passed. *)
Lemma parseSourceCode_nonempty (src : jsstring) (name : option jsstring) :
  src <> [] ->
  parseSourceCode (Some src) name =
  if startsWith src (js "{") then
    try_catch (let? jsonData := JSON_parse (parse_input src) in
               select_sources jsonData)
              (fun _ => Return (single_file src name))
  else Return (single_file src name).
Proof.
  intros H. unfold parseSourceCode, truthy_str. simpl of_option.
  rewrite truthy_nonempty by assumption. reflexivity.
Qed.

(** What the [try] block returns has enumerable entries: it is never [null]
    or [undefined]. *)
Lemma select_sources_entries (jsonData v : value) :
  select_sources jsonData = Return v -> exists es, Object_entries v = Return es.
Proof.
  unfold select_sources.
  destruct (get_property jsonData (js "sources")) as [sources|] eqn:G;
    simpl; [|discriminate].
  destruct (truthy sources && typeof_object sources) eqn:T.
  - intros [= <-]. apply andb_true_iff in T as [T1 T2].
    destruct sources; try discriminate; simpl; eauto.
  - intros [= <-]. destruct jsonData; try discriminate; simpl; eauto.
Qed.

Lemma single_file_name_given (n : jsstring) :
  n <> [] -> single_file_name (Some n) = n ++ js ".sol".
Proof.
  intros H. unfold single_file_name, truthy_str. simpl of_option.
  now rewrite truthy_nonempty.
Qed.

Lemma single_file_name_absent : single_file_name None = js "Contract.sol".
Proof. reflexivity. Qed.

(** C1, as stated, fails: the source text [{}] is not empty, yet the map
    returned for it has no entry. *)
Lemma parseSourceCode_empty_map :
  parseSourceCode (Some (jq "{}")) (Some (js "Foo")) = Return (VObject [])
  /\ Object_entries (VObject []) = Return []
  /\ ~ (forall src name, src <> [] ->
         exists v kv rest, parseSourceCode (Some src) name = Return v
                           /\ Object_entries v = Return (kv :: rest)).
Proof.
  assert (E : parseSourceCode (Some (jq "{}")) (Some (js "Foo"))
              = Return (VObject [])) by (vm_compute; reflexivity).
  split; [exact E|]. split; [reflexivity|].
  intros H. destruct (H (jq "{}") (Some (js "Foo"))) as (v & kv & rest & Hv & He).
  { discriminate. }
  pose proof (eq_trans (eq_sym Hv) E) as X. injection X as ->. discriminate.
Qed.

(** C1 (amended): for every non-empty source text [parseSourceCode] returns
    a map.  The map has exactly one entry, the text itself under the
    single-file name, when the text does not start with an opening brace or
    the structured parse fails.  Otherwise it is the parsed [sources] mapping
    (or the parsed value itself), unchanged; only such a map can be without
    entries. *)
Theorem parseSourceCode_entries (src : jsstring) (name : option jsstring) :
  src <> [] ->
  exists v entries,
    parseSourceCode (Some src) name = Return v
    /\ Object_entries v = Return entries
    /\ ((startsWith src (js "{") = false
         \/ exists e, JSON_parse (parse_input src) = Throw e) ->
        entries = [(single_file_name name, VObject [(js "content", VString src)])])
    /\ (entries = [] ->
        startsWith src (js "{") = true
        /\ exists jsonData, JSON_parse (parse_input src) = Return jsonData
                            /\ select_sources jsonData = Return v).
Proof.
  intros H. rewrite parseSourceCode_nonempty by assumption.
  assert (Single : exists v entries,
             Return (single_file src name) = Return v
             /\ Object_entries v = Return entries
             /\ entries = [(single_file_name name,
                            VObject [(js "content", VString src)])]).
  { exists (single_file src name). eexists. repeat split. }
  destruct (startsWith src (js "{")) eqn:B.
  - destruct (JSON_parse (parse_input src)) as [jsonData|e] eqn:J; simpl.
    + destruct (select_sources jsonData) as [v|e] eqn:Sel; simpl.
      * destruct (select_sources_entries _ Sel) as [es Hes].
        exists v, es. split; [reflexivity|]. split; [exact Hes|]. split.
        -- intros [F|[e F]]; discriminate.
        -- intros _. split; [reflexivity|]. exists jsonData. auto.
      * destruct Single as (v & es & Hv & Hes & ->).
        exists v. eexists. split; [exact Hv|]. split; [exact Hes|].
        split; [reflexivity | discriminate].
    + destruct Single as (v & es & Hv & Hes & ->).
      exists v. eexists. split; [exact Hv|]. split; [exact Hes|].
      split; [reflexivity | discriminate].
  - destruct Single as (v & es & Hv & Hes & ->).
    exists v. eexists. split; [exact Hv|]. split; [exact Hes|].
    split; [reflexivity | discriminate].
Qed.

Lemma parseSourceCode_entries_witness :
  exists v entries,
    parseSourceCode (Some (jq "{'sources':{}}")) None = Return v
    /\ Object_entries v = Return entries
    /\ ((startsWith (jq "{'sources':{}}") (js "{") = false
         \/ exists e, JSON_parse (parse_input (jq "{'sources':{}}")) = Throw e) ->
        entries = [(single_file_name None,
                    VObject [(js "content", VString (jq "{'sources':{}}"))])])
    /\ (entries = [] ->
        startsWith (jq "{'sources':{}}") (js "{") = true
        /\ exists jsonData,
            JSON_parse (parse_input (jq "{'sources':{}}")) = Return jsonData
            /\ select_sources jsonData = Return v).
Proof.
  apply (@parseSourceCode_entries (jq "{'sources':{}}") None). discriminate.
Defined.

(** [fileData.content || fileData] on a plain string is the string. *)
Lemma file_content_string (s : jsstring) :
  file_content (VString s) = Return (VString s).
Proof. unfold file_content; simpl. now destruct s. Qed.

(** [fileData.content || fileData] on an object whose [content] is a
    non-empty string is that string. *)
Lemma file_content_object (o : object) (c : jsstring) :
  obj_get (js "content") o = Some (VString c) -> c <> [] ->
  file_content (VObject o) = Return (VString c).
Proof.
  intros G H. unfold file_content, get_property. rewrite G.
  destruct c; [contradiction | reflexivity].
Qed.

(** C3, as stated, fails: the flat entry comes back as the plain string, not
    wrapped in an object with a [content] field. *)
Lemma flat_entry_not_wrapped :
  parseSourceCode (Some (jq "{'a.sol':'x'}")) (Some (js "Foo"))
  <> Return (VObject [(js "a.sol", VObject [(js "content", VString (js "x"))])]).
Proof. vm_compute. discriminate. Qed.

(** The name and value of an own property are among the entries. *)
Lemma obj_get_In (k : jsstring) (o : object) (v : value) :
  obj_get k o = Some v -> exists k', In (k', v) o.
Proof.
  induction o as [|[k0 v0] o IH]; simpl; [discriminate|].
  destruct (str_eqb k k0).
  - intros [= ->]. exists k0. now left.
  - intros G. destruct (IH G) as [k' H]. exists k'. now right.
Qed.

(** C3 (amended): when the text parses to an object all of whose entries
    are plain strings, [parseSourceCode] returns that object unchanged, the
    strings as they are, whatever the contract name; so it does for such an
    object under [sources].  No [content] object is built.  The flat form
    is accepted when the files are written: for a plain-string entry the
    loop hands the string itself to [fs.writeFileSync], which is what it
    does for the same string wrapped in a [content] object. *)
Theorem flat_entry_accepted (src : jsstring) (name : option jsstring)
    (o : object) :
  startsWith src (js "{") = true ->
  (forall p v, In (p, v) o -> exists x, v = VString x) ->
  (JSON_parse (parse_input src) = Return (VObject o) ->
   parseSourceCode (Some src) name = Return (VObject o))
  /\ (forall payload,
        JSON_parse (parse_input src) = Return (VObject payload) ->
        obj_get (js "sources") payload = Some (VObject o) ->
        parseSourceCode (Some src) name = Return (VObject o))
  /\ Object_entries (VObject o) = Return o
  /\ (forall x, file_content (VString x) = Return (VString x))
  /\ (forall (S : Type) (P : Platform S) (dir p x : jsstring),
        write_entry dir (p, VString x)
        = (ensure_dir (path_dirname (path_join dir p)) ;;
           fs_writeFileSync (path_join dir p) (VString x)))
  /\ (forall (S : Type) (P : Platform S) (dir p x : jsstring),
        x <> [] ->
        write_entry dir (p, VString x)
        = write_entry dir (p, VObject [(js "content", VString x)])).
Proof.
  intros H Flat.
  assert (T : truthy_str (Some src) = true).
  { destruct src; [discriminate | reflexivity]. }
  split; [|split; [|split; [reflexivity|split; [|split]]]].
  - intros J. unfold parseSourceCode.
    rewrite T. simpl negb. simpl template. rewrite H, J.
    unfold try_catch, bind_result, select_sources, get_property.
    destruct (obj_get (js "sources") o) as [v|] eqn:G; [|reflexivity].
    destruct (obj_get_In _ _ G) as [k' I].
    destruct (Flat k' v I) as [x ->]. simpl.
    now rewrite andb_false_r.
  - intros payload J G. unfold parseSourceCode.
    rewrite T. simpl negb. simpl template. rewrite H, J.
    unfold try_catch, bind_result, select_sources, get_property.
    now rewrite G.
  - apply file_content_string.
  - intros S P dir p x. unfold write_entry.
    rewrite file_content_string. reflexivity.
  - intros S P dir p x Hx. unfold write_entry.
    rewrite file_content_string.
    rewrite (@file_content_object [(js "content", VString x)] x); auto.
Qed.

Lemma flat_entry_accepted_witness :
  parseSourceCode (Some (jq "{'a.sol':'x'}")) (Some (js "Foo"))
  = Return (VObject [(js "a.sol", VString (js "x"))])
  /\ file_content (VString (js "x")) = Return (VString (js "x"))
  /\ forall (S : Type) (P : Platform S) (dir : jsstring),
       write_entry dir (js "a.sol", VString (js "x"))
       = write_entry dir (js "a.sol", VObject [(js "content", VString (js "x"))]).
Proof.
  destruct (@flat_entry_accepted (jq "{'a.sol':'x'}") (Some (js "Foo"))
              [(js "a.sol", VString (js "x"))])
    as (H1 & _ & _ & H2 & _ & H3).
  - reflexivity.
  - intros p v [E|[]]. inversion E. eexists; reflexivity.
  - split; [apply H1; vm_compute; reflexivity|]. split; [apply H2|].
    intros S P dir. apply H3. discriminate.
Defined.

(** C4 at the entry [{ content: '' }]: the empty string is falsy, so the
    loop hands the entry object itself to [fs.writeFileSync]; on the
    in-memory platform the write is rejected and no file is created. *)
Theorem empty_content_entry :
  file_content (VObject [(js "content", VString [])])
  = Return (VObject [(js "content", VString [])])
  /\ parseSourceCode (Some (jq "{'sources':{'a.sol':{'content':''}}}")) None
     = Return (VObject [(js "a.sol", VObject [(js "content", VString [])])])
  /\ let contractData :=
       {| ContractName := Some (js "A"); CompilerVersion := None;
          OptimizationUsed := None; Runs := None; EVMVersion := None;
          LicenseType := None; Proxy := None; Implementation := None;
          ConstructorArguments := None;
          SourceCode := Some (jq "{'sources':{'a.sol':{'content':''}}}");
          ABI := None |} in
     let s0 := {| MemFS.files := []; MemFS.dirs := []; MemFS.clock := [];
                  MemFS.explorer := [] |} in
     let out := writeContractFiles (P := MemFS.platform) contractData
                  (js "out") (Some (js "A")) s0 in
     fst out = Throw TypeError /\ MemFS.files (snd out) = [].
Proof. vm_compute. repeat split. Qed.

(** C6: when the text starts with two opening braces, the text handed to
    [JSON.parse] is the source without its first and its last code unit; so a
    payload wrapped once more parses to the same result as the payload
    itself, as for the double-wrapped sample of the specification. *)
Theorem double_wrap_stripped :
  (forall src name, startsWith src (js "{{") = true ->
     parseSourceCode (Some src) name
     = try_catch (let? jsonData := JSON_parse (slice_1_m1 src) in
                  select_sources jsonData)
                 (fun _ => Return (single_file src name)))
  /\ (forall inner last name jsonData,
        startsWith inner (js "{") = true ->
        startsWith inner (js "{{") = false ->
        JSON_parse inner = Return jsonData ->
        parseSourceCode (Some (js "{" ++ inner ++ [last])) name
        = parseSourceCode (Some inner) name)
  /\ (forall n,
        parseSourceCode (Some (jq "{{'sources':{'a.sol':{'content':'x'}}}}")) n
        = parseSourceCode (Some (jq "{'sources':{'a.sol':{'content':'x'}}}")) n)
  /\ (forall n,
        parseSourceCode (Some (jq "{{'sources':{'a.sol':{'content':'x'}}}}")) n
        = Return (VObject [(js "a.sol", VObject [(js "content", VString (js "x"))])])).
Proof.
  split; [|split; [|split]].
  - intros src name H.
    assert (NE : src <> []) by (eapply startsWith_nonempty; eauto; discriminate).
    rewrite parseSourceCode_nonempty by assumption.
    assert (B : startsWith src (js "{") = true).
    { exact (startsWith_head _ _ _ H). }
    rewrite B. unfold parse_input. now rewrite H.
  - intros inner last name jsonData B1 B2 J.
    assert (NE : inner <> []) by (eapply startsWith_nonempty; eauto; discriminate).
    rewrite !parseSourceCode_nonempty by (assumption || discriminate).
    rewrite B1. unfold parse_input at 2. rewrite B2, J.
    assert (D : startsWith (js "{" ++ inner ++ [last]) (js "{{") = true).
    { destruct inner as [|c inner]; [discriminate|].
      change (js "{") with [123%N] in B1. simpl in B1.
      apply andb_true_iff in B1 as [C _]. apply N.eqb_eq in C. subst c.
      change (js "{{") with [123%N; 123%N]. simpl. apply startsWith_nil. }
    unfold parse_input. rewrite D.
    change (js "{" ++ inner ++ [last]) with (123%N :: inner ++ [last]).
    rewrite slice_1_m1_wrap, J.
    replace (startsWith (123%N :: inner ++ [last]) (js "{")) with true
      by (symmetry; apply startsWith_nil).
    destruct (JSON_parse_brace _ B1 J) as [o ->].
    unfold select_sources, get_property; simpl.
    destruct (obj_get (js "sources") o) as [x|]; simpl;
      [destruct (truthy x && typeof_object x)|]; reflexivity.
  - intros n. vm_compute. reflexivity.
  - intros n. vm_compute. reflexivity.
Qed.

Lemma double_wrap_stripped_witness :
  parseSourceCode (Some (jq "{{'a.sol':'x'}}")) None
  = try_catch (let? jsonData := JSON_parse (slice_1_m1 (jq "{{'a.sol':'x'}}")) in
               select_sources jsonData)
              (fun _ => Return (single_file (jq "{{'a.sol':'x'}}") None))
  /\ parseSourceCode (Some (js "{" ++ jq "{'a.sol':'x'}" ++ [125%N])) None
     = parseSourceCode (Some (jq "{'a.sol':'x'}")) None.
Proof.
  destruct double_wrap_stripped as (H1 & H2 & _). split.
  - apply H1. reflexivity.
  - apply (H2 (jq "{'a.sol':'x'}") 125%N None
              (VObject [(js "a.sol", VString (js "x"))])); reflexivity.
Defined.

(** C7: when the text starts with an opening brace and [JSON.parse] rejects
    it (after the stripping of a double brace, if any), [parseSourceCode]
    does not throw: it returns the single-file map whose one entry holds the
    original, unstripped text, under [<contractName>.sol], or under
    [Contract.sol] when no name is given (an empty name counts as none). *)
Theorem parse_failure_fallback (src : jsstring) (e : exn) :
  startsWith src (js "{") = true ->
  JSON_parse (parse_input src) = Throw e ->
  (forall n, n <> [] ->
     parseSourceCode (Some src) (Some n)
     = Return (VObject [(n ++ js ".sol", VObject [(js "content", VString src)])]))
  /\ parseSourceCode (Some src) None
     = Return (VObject [(js "Contract.sol", VObject [(js "content", VString src)])])
  /\ parseSourceCode (Some src) (Some [])
     = Return (VObject [(js "Contract.sol", VObject [(js "content", VString src)])]).
Proof.
  intros B J.
  assert (NE : src <> []) by (eapply startsWith_nonempty; eauto; discriminate).
  split; [intros n Hn | split]; rewrite parseSourceCode_nonempty by assumption;
    rewrite B, J; simpl; unfold single_file.
  - now rewrite single_file_name_given.
  - reflexivity.
  - reflexivity.
Qed.

Lemma parse_failure_fallback_witness :
  (forall n, n <> [] ->
     parseSourceCode (Some (js "{not-valid-json")) (Some n)
     = Return (VObject [(n ++ js ".sol",
                         VObject [(js "content", VString (js "{not-valid-json"))])]))
  /\ parseSourceCode (Some (js "{not-valid-json")) None
     = Return (VObject [(js "Contract.sol",
                         VObject [(js "content", VString (js "{not-valid-json"))])])
  /\ parseSourceCode (Some (js "{not-valid-json")) (Some [])
     = Return (VObject [(js "Contract.sol",
                         VObject [(js "content", VString (js "{not-valid-json"))])]).
Proof.
  apply (@parse_failure_fallback (js "{not-valid-json") SyntaxError);
    vm_compute; reflexivity.
Defined.

(** ** The manifest *)

Lemma inherited_setter_false (k : jsstring) (o : object) :
  k <> js "__proto__" \/ obj_get k o <> None -> inherited_setter k o = false.
Proof.
  unfold inherited_setter. intros [H|H].
  - now rewrite (str_eqb_neq H).
  - destruct (obj_get k o); [apply andb_false_r | contradiction].
Qed.

Lemma inherited_setter_true (k : jsstring) (o : object) :
  inherited_setter k o = true <-> k = js "__proto__" /\ obj_get k o = None.
Proof.
  unfold inherited_setter. rewrite andb_true_iff, str_eqb_eq.
  destruct (obj_get k o); split; intros [H1 H2]; try discriminate; auto.
Qed.

(** The assignment on lines 245-253 on a manifest that is an object: an own
    property is created or replaced, unless the address reaches the
    inherited setter. *)
Lemma upsert_object (m : object) (r : ContractResults) (t : jsstring) :
  address r <> js "__proto__" \/ obj_get (address r) m <> None ->
  upsert (VObject m) r t
  = Return (VObject (obj_set (address r) (manifest_entry r t) m)).
Proof.
  intros H. unfold upsert, set_property. now rewrite inherited_setter_false.
Qed.

Lemma upsert_inherited (m : object) (r : ContractResults) (t : jsstring) :
  address r = js "__proto__" -> obj_get (address r) m = None ->
  upsert (VObject m) r t = Return (VObject m).
Proof.
  intros H G. unfold upsert, set_property.
  now rewrite (proj2 (inherited_setter_true (address r) m) (conj H G)).
Qed.

Lemma upsert_object_returns (m : object) (r : ContractResults) (t : jsstring) :
  exists m', upsert (VObject m) r t = Return (VObject m').
Proof.
  unfold upsert, set_property. destruct (inherited_setter (address r) m); eauto.
Qed.

Section Manifest.

Context {S : Type} {P : Platform S}.

(** [saveResults] once the manifest is loaded. *)
Lemma saveResults_loaded (dir : jsstring) (r : ContractResults) (s s' : S)
    (allResults : value) :
  load_results (path_join dir (js "results.json")) s = (Return allResults, s') ->
  saveResults dir r s
  = match upsert allResults r (Date_toISOString s') with
    | Return updated =>
        fs_writeFileSync (path_join dir (js "results.json"))
          (JSON_stringify updated) s'
    | Throw x => (Throw x, s')
    end.
Proof.
  intros L. unfold saveResults, bind. rewrite L. unfold lift_result.
  now destruct (upsert allResults r (Date_toISOString s')).
Qed.


(** [load_results] always yields a manifest. *)
Lemma load_results_total (resultsPath : jsstring) (s : S) :
  exists v s', load_results resultsPath s = (Return v, s').
Proof.
  unfold load_results. destruct (fs_existsSync resultsPath s); [|eauto].
  unfold try_catch_M, bind, lift_result, ret.
  destruct (fs_readFileSync resultsPath s) as [[text|e] s'] eqn:R; [|eauto].
  destruct (JSON_parse text); eauto.
Qed.

(** The manifest that [load_results] yields, when an object, has unique
    names. *)
Lemma load_results_unique_names (resultsPath : jsstring) (s s' : S) (m : object) :
  load_results resultsPath s = (Return (VObject m), s') -> NoDup (map fst m).
Proof.
  unfold load_results. destruct (fs_existsSync resultsPath s).
  - unfold try_catch_M, bind, lift_result, ret.
    destruct (fs_readFileSync resultsPath s) as [[text|e] s1].
    + destruct (JSON_parse text) as [v|e] eqn:J.
      * intros [= -> _]. now apply JSON_parse_unique_names in J.
      * intros [= <- _]. constructor.
    + intros [= <- _]. constructor.
  - intros [= <- _]. constructor.
Qed.

End Manifest.




Section Reset.

Context {S : Type} {P : Platform S}.

(** C8: when the manifest file exists but its text is not JSON,
    [load_results] yields the empty manifest and does not throw, and
    [saveResults] goes on from it: what it writes is the outcome of the
    upsert on the empty manifest, which holds the new entry alone.  (At the
    address [__proto__] the upsert leaves the empty manifest empty.)
    Loading never throws at all. *)
Theorem corrupted_manifest_reset (outputDir text : jsstring)
    (r : ContractResults) (s s' : S) (e : exn) :
  let resultsPath := path_join outputDir (js "results.json") in
  fs_existsSync resultsPath s = true ->
  fs_readFileSync resultsPath s = (Return text, s') ->
  JSON_parse text = Throw e ->
  load_results resultsPath s = (Return (VObject []), s')
  /\ (exists updated,
        upsert (VObject []) r (Date_toISOString s') = Return updated
        /\ saveResults outputDir r s
           = fs_writeFileSync resultsPath (JSON_stringify updated) s'
        /\ (address r <> js "__proto__" ->
            updated
            = VObject [(address r, manifest_entry r (Date_toISOString s'))])
        /\ (address r = js "__proto__" -> updated = VObject []))
  /\ (forall path s0, exists v s1, load_results path s0 = (Return v, s1)).
Proof.
  intros resultsPath X R J.
  assert (L : load_results resultsPath s = (Return (VObject []), s')).
  { unfold load_results. rewrite X.
    unfold try_catch_M, bind, lift_result, ret. now rewrite R, J. }
  split; [exact L|]. split; [|intros; apply load_results_total].
  destruct (upsert_object_returns [] r (Date_toISOString s')) as [m' U].
  exists (VObject m'). split; [exact U|]. split.
  - rewrite (@saveResults_loaded S P outputDir r s s' (VObject []) L).
    fold resultsPath. now rewrite U.
  - split.
    + intros H. rewrite upsert_object in U by now left.
      rewrite obj_set_nil in U. congruence.
    + intros H. rewrite upsert_inherited in U by auto. congruence.
Qed.

End Reset.

Lemma corrupted_manifest_reset_witness :
  let r := {| address := js "0xAB"; written := sample_written |} in
  let resultsPath := MemFS.join2 (js "./contracts") (js "results.json") in
  load_results (P := MemFS.platform) resultsPath corrupted_state
  = (Return (VObject []), corrupted_state)
  /\ saveResults (P := MemFS.platform) (js "./contracts") r corrupted_state
     = MemFS.writeFileSync resultsPath
         (JSON_stringify
            (VObject [(address r,
                       manifest_entry r (js "2024-01-01T00:00:00.000Z"))]))
         corrupted_state
  /\ (forall path s0, exists v s1,
        load_results (P := MemFS.platform) path s0 = (Return v, s1)).
Proof.
  intros r resultsPath.
  destruct (@corrupted_manifest_reset MemFS.state MemFS.platform
              (js "./contracts") (js "{ 'truncated") r corrupted_state
              corrupted_state SyntaxError)
    as (L & (updated & _ & W & U & _) & T).
  - reflexivity.
  - reflexivity.
  - vm_compute; reflexivity.
  - split; [exact L|]. split; [|exact T].
    rewrite W, U; [reflexivity | discriminate].
Defined.

(** ** Proxy resolution *)

Lemma strict_eq_str_true (o : option jsstring) (lit : jsstring) :
  strict_eq_str o lit = true <-> o = Some lit.
Proof.
  destruct o as [s|]; simpl; [|split; discriminate].
  rewrite str_eqb_eq. split; [now intros -> | now intros [= ->]].
Qed.

Lemma truthy_str_true (o : option jsstring) :
  truthy_str o = true <-> exists s, o = Some s /\ s <> [].
Proof.
  destruct o as [[|c s]|]; unfold truthy_str; simpl; split;
    try discriminate; try (intros (s' & E & Hs); congruence).
  intros _. exists (c :: s). split; [reflexivity | discriminate].
Qed.

Lemma is_proxy_true (cd : ContractData) :
  is_proxy cd = true <->
  Proxy cd = Some (js "1") /\ exists a, Implementation cd = Some a /\ a <> [].
Proof.
  unfold is_proxy. now rewrite andb_true_iff, strict_eq_str_true, truthy_str_true.
Qed.

Lemma is_proxy_false (cd : ContractData) :
  is_proxy cd = false <->
  Proxy cd <> Some (js "1") \/ Implementation cd = None
  \/ Implementation cd = Some [].
Proof.
  unfold is_proxy. rewrite andb_false_iff. split.
  - intros [H|H].
    + left. intros E. apply strict_eq_str_true in E. congruence.
    + destruct (Implementation cd) as [[|c a]|]; auto. discriminate.
  - intros [H|[H|H]].
    + left. destruct (strict_eq_str (Proxy cd) (js "1")) eqn:E; [|reflexivity].
      apply strict_eq_str_true in E. contradiction.
    + right. now rewrite H.
    + right. now rewrite H.
Qed.

(** The directory recorded in the manifest is the label of the intent,
    when the label is not empty; the label of a proxy never is. *)
Lemma actual_contract_name_label (label : jsstring) (cd : ContractData) :
  label <> [] -> actual_contract_name (Some label) cd = label.
Proof.
  intros H. unfold actual_contract_name, truthy_str. simpl of_option.
  now rewrite truthy_nonempty.
Qed.

Lemma proxy_label_nonempty (name : option jsstring) :
  template name ++ js "_Proxy" <> [].
Proof. destruct (template name); discriminate. Qed.

Section Resolution.

Context {S : Type} {P : Platform S}.

Lemma write_and_save_run (config : Config) (a : jsstring) (cd : ContractData)
    (label : option jsstring) (s : S) (tr : list WriteIntent) :
  write_and_save config a cd label (s, tr)
  = (fst (write_then_save config a cd label s),
     (snd (write_then_save config a cd label s),
      tr ++ [{| fetchAddress := a; record := cd; directoryLabel := label |}])).
Proof.
  unfold write_and_save, bind, emit, on_platform. simpl.
  now destruct (write_then_save config a cd label s).
Qed.

(** A run on a record that is not a proxy with an implementation. *)
Lemma main_plain (config : Config) (s s1 : S) (cd : ContractData) :
  config_address config <> [] ->
  fetch_at config (config_address config) s = (Return cd, s1) ->
  is_proxy cd = false ->
  main config (s, [])
  = (status_of (fst (write_then_save config (config_address config) cd
                       (ContractName cd) s1)),
     (snd (write_then_save config (config_address config) cd
             (ContractName cd) s1),
      [plain_intent (config_address config) cd])).
Proof.
  intros A F X. unfold main. rewrite truthy_nonempty by assumption. simpl negb.
  unfold main_body, bind. unfold on_platform at 1. simpl fst.
  unfold fetch_at in F. rewrite F, X, write_and_save_run. simpl.
  now destruct (write_then_save config (config_address config) cd
                  (ContractName cd) s1) as [[u|e] s2].
Qed.

(** A run on a proxy with an implementation address. *)
Lemma main_proxy (config : Config) (s s1 : S) (cd : ContractData) :
  config_address config <> [] ->
  fetch_at config (config_address config) s = (Return cd, s1) ->
  is_proxy cd = true ->
  main config (s, [])
  = match write_then_save config (config_address config) cd
            (Some (template (ContractName cd) ++ js "_Proxy")) s1 with
    | (Throw _, s2) => (1, (s2, [proxy_intent config cd]))
    | (Return _, s2) =>
        match fetch_at config (template (Implementation cd)) s2 with
        | (Throw _, s3) => (1, (s3, [proxy_intent config cd]))
        | (Return impl, s3) =>
            (status_of (fst (write_then_save config
                               (template (Implementation cd)) impl
                               (ContractName impl) s3)),
             (snd (write_then_save config (template (Implementation cd)) impl
                     (ContractName impl) s3),
              [proxy_intent config cd;
               plain_intent (template (Implementation cd)) impl]))
        end
    end.
Proof.
  intros A F X. unfold main. rewrite truthy_nonempty by assumption. simpl negb.
  unfold main_body. unfold bind at 1. unfold on_platform at 1. simpl fst.
  unfold fetch_at in F. rewrite F, X. unfold bind at 1.
  rewrite write_and_save_run. simpl.
  destruct (write_then_save config (config_address config) cd
              (Some (template (ContractName cd) ++ js "_Proxy")) s1)
    as [[u|e] s2]; simpl; [|reflexivity].
  unfold bind at 1. unfold on_platform at 1. simpl fst. unfold fetch_at.
  destruct (fetchContract (apiUrl config) (template (Implementation cd))
              (apiKey config) (chainId config) s2) as [[impl|e] s3];
    simpl; [|reflexivity].
  rewrite write_and_save_run. simpl.
  now destruct (write_then_save config (template (Implementation cd)) impl
                  (ContractName impl) s3) as [[u'|e] s4].
Qed.

(** C2: the write intents of a run whose first fetch returned [cd].  When
    the proxy flag is not ['1'] or the implementation address is absent or
    empty, exactly one intent is issued, for the record itself.  When the
    flag is ['1'] and the implementation address [a] is not empty, the
    intent for the proxy, labelled [ContractName + '_Proxy'], always comes
    first and at most one more follows; once the proxy's files and manifest
    entry are written and the second fetch returns [impl], the intents are
    exactly the proxy's and then the one for [impl] at address [a] under
    [impl]'s own contract name. *)
Theorem resolution_intents (config : Config) (s s1 : S) (cd : ContractData) :
  config_address config <> [] ->
  fetch_at config (config_address config) s = (Return cd, s1) ->
  ((Proxy cd <> Some (js "1") \/ Implementation cd = None
    \/ Implementation cd = Some []) ->
   intents config s
   = [{| fetchAddress := config_address config; record := cd;
         directoryLabel := ContractName cd |}])
  /\ (forall a, Proxy cd = Some (js "1") -> Implementation cd = Some a -> a <> [] ->
      let first := {| fetchAddress := config_address config; record := cd;
                      directoryLabel :=
                        Some (template (ContractName cd) ++ js "_Proxy") |} in
      let second impl := {| fetchAddress := a; record := impl;
                            directoryLabel := ContractName impl |} in
      (intents config s = [first]
       \/ exists impl, intents config s = [first; second impl])
      /\ (forall s2 s3 impl,
            write_then_save config (config_address config) cd
              (Some (template (ContractName cd) ++ js "_Proxy")) s1
            = (Return tt, s2) ->
            fetch_at config a s2 = (Return impl, s3) ->
            intents config s = [first; second impl])).
Proof.
  intros A F. split.
  - intros H. apply is_proxy_false in H. unfold intents.
    now rewrite (@main_plain config s s1 cd A F H).
  - intros a HP HI Ha first second.
    assert (X : is_proxy cd = true) by (apply is_proxy_true; eauto).
    unfold intents. rewrite (@main_proxy config s s1 cd A F X). rewrite HI. simpl template.
    fold first. split.
    + destruct (write_then_save config (config_address config) cd
                  (Some (template (ContractName cd) ++ js "_Proxy")) s1)
        as [[u|e] s2]; [|now left].
      destruct (fetch_at config a s2) as [[impl|e] s3]; [|now left].
      right. exists impl. reflexivity.
    + intros s2 s3 impl W F2. now rewrite W, F2.
Qed.



End Resolution.

(** ** Runs on the in-memory platform *)

Lemma resolution_intents_witness :
  intents (P := MemFS.platform) (sample_config (js "0xIMPL")) proxy_world
  = [{| fetchAddress := js "0xIMPL"; record := impl_record;
        directoryLabel := Some (js "VaultLogic") |}]
  /\ intents (P := MemFS.platform) (sample_config (js "0xPROXY")) proxy_world
     = [{| fetchAddress := js "0xPROXY"; record := proxy_record;
           directoryLabel := Some (js "Vault_Proxy") |};
        {| fetchAddress := js "0xIMPL"; record := impl_record;
           directoryLabel := Some (js "VaultLogic") |}].
Proof.
  split.
  - refine (proj1 (@resolution_intents MemFS.state MemFS.platform
                     (sample_config (js "0xIMPL")) proxy_world proxy_world
                     impl_record _ _) _).
    + discriminate.
    + reflexivity.
    + right; right; reflexivity.
  - refine (proj2 (proj2 (@resolution_intents MemFS.state MemFS.platform
                     (sample_config (js "0xPROXY")) proxy_world proxy_world
                     proxy_record _ _) (js "0xIMPL") _ _ _)
              (snd (write_then_save (P := MemFS.platform)
                      (sample_config (js "0xPROXY")) (js "0xPROXY") proxy_record
                      (Some (js "Vault_Proxy")) proxy_world))
              (snd (write_then_save (P := MemFS.platform)
                      (sample_config (js "0xPROXY")) (js "0xPROXY") proxy_record
                      (Some (js "Vault_Proxy")) proxy_world))
              impl_record _ _).
    + discriminate.
    + reflexivity.
    + reflexivity.
    + reflexivity.
    + discriminate.
    + vm_compute; reflexivity.
    + vm_compute; reflexivity.
Defined.

(** *** The files of the in-memory platform *)

Lemma lookup_store_same (A : Type) (k : jsstring) (v : A)
    (l : list (jsstring * A)) :
  MemFS.lookup k (MemFS.store k v l) = Some v.
Proof.
  induction l as [|[k' v'] l IH]; simpl.
  - now rewrite str_eqb_refl.
  - destruct (str_eqb k k') eqn:E; simpl.
    + now rewrite str_eqb_refl.
    + now rewrite E.
Qed.

Lemma lookup_store_other (A : Type) (k k' : jsstring) (v : A)
    (l : list (jsstring * A)) :
  k <> k' -> MemFS.lookup k (MemFS.store k' v l) = MemFS.lookup k l.
Proof.
  intros Hne. induction l as [|[k0 v0] l IH]; simpl.
  - now rewrite (str_eqb_neq Hne).
  - destruct (str_eqb k' k0) eqn:E; simpl.
    + apply str_eqb_eq in E. subst k0. now rewrite (str_eqb_neq Hne).
    + now rewrite IH.
Qed.

Lemma writeFileSync_files (p : jsstring) (data : value) (s s' : MemFS.state) :
  MemFS.writeFileSync p data s = (Return tt, s') ->
  exists text,
    data = VString text
    /\ MemFS.files s' = MemFS.store (MemFS.normalize p) text (MemFS.files s)
    /\ MemFS.clock s' = MemFS.clock s
    /\ MemFS.explorer s' = MemFS.explorer s.
Proof.
  unfold MemFS.writeFileSync. destruct data; try discriminate.
  destruct (MemFS.is_dir (MemFS.normalize p) s); [discriminate|].
  destruct (negb (MemFS.is_dir (MemFS.dirname (MemFS.normalize p)) s));
    [discriminate|].
  intros H. inversion H; subst s'. eexists. repeat split.
Qed.

Lemma ensure_dir_files (dir : jsstring) (s s' : MemFS.state) (r : result unit) :
  ensure_dir (P := MemFS.platform) dir s = (r, s') ->
  MemFS.files s' = MemFS.files s /\ MemFS.clock s' = MemFS.clock s
  /\ MemFS.explorer s' = MemFS.explorer s.
Proof.
  unfold ensure_dir.
  cbn [fs_existsSync fs_mkdirSync MemFS.platform].
  destruct (MemFS.existsSync dir s); [intros H; inversion H; auto|].
  unfold MemFS.mkdirSync.
  destruct (existsb _ _); intros H; inversion H; subst; auto.
Qed.

(** Where [fs.writeFileSync] puts the file named [p] below [dir]. *)
Lemma write_entry_files (dir p : jsstring) (d : value) (s s' : MemFS.state) :
  write_entry (P := MemFS.platform) dir (p, d) s = (Return tt, s') ->
  exists text,
    file_content d = Return (VString text)
    /\ MemFS.files s'
       = MemFS.store (MemFS.normalize (MemFS.join2 dir p)) text (MemFS.files s)
    /\ MemFS.clock s' = MemFS.clock s
    /\ MemFS.explorer s' = MemFS.explorer s.
Proof.
  unfold write_entry, bind, lift_result.
  destruct (file_content d) as [content|x]; [|discriminate].
  cbn [path_join path_dirname fs_writeFileSync MemFS.platform].
  destruct (ensure_dir (P := MemFS.platform)
              (MemFS.dirname (MemFS.join2 dir p)) s) as [[u|x] s0] eqn:E;
    [|discriminate].
  apply ensure_dir_files in E. destruct E as (E1 & E2 & E3).
  intros W. apply writeFileSync_files in W.
  destruct W as (text & -> & W1 & W2 & W3).
  exists text. rewrite W1, W2, W3, E1, E2, E3. auto.
Qed.

(** One turn of the loop. *)
Lemma write_entries_cons (S : Type) (P : Platform S) (dir : jsstring)
    (e : jsstring * value) (es : list (jsstring * value)) (s : S) :
  write_entries dir (e :: es) s
  = match write_entry dir e s with
    | (Return _, s1) =>
        match write_entries dir es s1 with
        | (Return l, s2) => (Return (fst e :: l), s2)
        | (Throw x, s2) => (Throw x, s2)
        end
    | (Throw x, s1) => (Throw x, s1)
    end.
Proof.
  change (write_entries dir (e :: es))
    with (write_entry dir e ;; fileList <- write_entries dir es ;;
          ret (fst e :: fileList)).
  unfold bind, ret. destruct (write_entry dir e s) as [[u|x] s1]; [|reflexivity].
  now destruct (write_entries dir es s1) as [[l|x] s2].
Qed.

(** The loop leaves alone every path that none of its entries names. *)
Lemma write_entries_frame (dir k : jsstring) (es : list (jsstring * value))
    (s s' : MemFS.state) (l : list jsstring) :
  write_entries (P := MemFS.platform) dir es s = (Return l, s') ->
  (forall q, In q (map fst es) -> MemFS.normalize (MemFS.join2 dir q) <> k) ->
  MemFS.lookup k (MemFS.files s') = MemFS.lookup k (MemFS.files s).
Proof.
  revert s l. induction es as [|[p d] es IH]; intros s l.
  - simpl. unfold ret. intros H _. now inversion H.
  - rewrite write_entries_cons.
    destruct (write_entry (P := MemFS.platform) dir (p, d) s)
      as [[[]|x] s0] eqn:W; [|discriminate].
    destruct (write_entries (P := MemFS.platform) dir es s0)
      as [[l0|x] s1] eqn:R; [|discriminate].
    intros H N. inversion H; subst s1.
    apply write_entry_files in W. destruct W as (text & _ & W & _).
    rewrite (IH s0 l0 R) by (intros q Hq; apply N; now right).
    rewrite W. apply lookup_store_other.
    intros E. apply (N p); [now left | congruence].
Qed.

(** After the loop, an entry whose path no later entry names is on disk
    with its content. *)
Lemma write_entries_files (dir : jsstring) (es : list (jsstring * value))
    (s s' : MemFS.state) (l : list jsstring) :
  write_entries (P := MemFS.platform) dir es s = (Return l, s') ->
  forall before p d after,
    es = before ++ (p, d) :: after ->
    (forall q, In q (map fst after) ->
       MemFS.normalize (MemFS.join2 dir q) <> MemFS.normalize (MemFS.join2 dir p)) ->
    exists text,
      file_content d = Return (VString text)
      /\ MemFS.lookup (MemFS.normalize (MemFS.join2 dir p)) (MemFS.files s')
         = Some text.
Proof.
  intros H before. revert es s l H.
  induction before as [|b before IH]; intros es s l H p d after -> N.
  - simpl app in H. rewrite write_entries_cons in H.
    destruct (write_entry (P := MemFS.platform) dir (p, d) s)
      as [[[]|x] s0] eqn:W; [|discriminate].
    destruct (write_entries (P := MemFS.platform) dir after s0)
      as [[l0|x] s1] eqn:R; [|discriminate].
    inversion H; subst s1.
    apply write_entry_files in W. destruct W as (text & C & W & _).
    exists text. split; [exact C|].
    rewrite (@write_entries_frame _ _ _ _ _ _ R N), W. apply lookup_store_same.
  - simpl app in H. rewrite write_entries_cons in H.
    destruct (write_entry (P := MemFS.platform) dir b s)
      as [[[]|x] s0] eqn:W; [|discriminate].
    destruct (write_entries (P := MemFS.platform) dir
                (before ++ (p, d) :: after) s0) as [[l0|x] s1] eqn:R;
      [|discriminate].
    inversion H; subst s1.
    apply (IH _ s0 l0 R p d after eq_refl N).
Qed.

(** The steps of [writeContractFiles] on the in-memory platform. *)
Lemma writeContractFiles_steps (cd : ContractData) (dir : jsstring)
    (label : option jsstring) (s sw : MemFS.state) (result : WriteResult) :
  writeContractFiles (P := MemFS.platform) cd dir label s = (Return result, sw) ->
  exists sources entries s0,
    parseSourceCode (SourceCode cd) (ContractName cd) = Return sources
    /\ Object_entries sources = Return entries
    /\ MemFS.files s0 = MemFS.files s
    /\ write_entries (P := MemFS.platform) dir entries s0
       = (Return (fileList result), sw).
Proof.
  unfold writeContractFiles, bind, lift_result, ret.
  destruct (parseSourceCode (SourceCode cd) (ContractName cd))
    as [sources|x]; [|discriminate].
  destruct (ensure_dir (P := MemFS.platform) dir s) as [[u|x] s0] eqn:E;
    [|discriminate].
  destruct (Object_entries sources) as [entries|x] eqn:OE; [|discriminate].
  destruct (write_entries (P := MemFS.platform) dir entries s0)
    as [[l|x] s1] eqn:W; [|discriminate].
  intros H. inversion H; subst. simpl.
  exists sources, entries, s0. apply ensure_dir_files in E.
  destruct E as (E & _). auto.
Qed.

(** Loading the manifest leaves the in-memory platform as it is. *)
Lemma load_results_state (path : jsstring) (s s' : MemFS.state) (r : result value) :
  load_results (P := MemFS.platform) path s = (r, s') -> s' = s.
Proof.
  unfold load_results. cbn [fs_existsSync fs_readFileSync MemFS.platform].
  destruct (MemFS.existsSync path s); [|intros H; now inversion H].
  unfold try_catch_M, bind, lift_result, ret, MemFS.readFileSync.
  destruct (MemFS.lookup (MemFS.normalize path) (MemFS.files s)) as [text|].
  - destruct (JSON_parse text); intros H; now inversion H.
  - intros H; now inversion H.
Qed.

(** C5: on the in-memory platform, when the proxy's pass has returned and
    the fetch of the implementation then throws, the run ends with status 1
    in the state the proxy's pass left, and nothing is undone.  In that
    final state every source file of the proxy holds the content written
    for it (for a path that no later entry and not the manifest was written
    to), and the manifest file holds the text that [saveResults] wrote: the
    serialised outcome of the upsert, which, for a manifest that was an
    object, has the proxy's entry under the configured address. *)
Theorem partial_success (config : Config) (s s2 : MemFS.state)
    (cd : ContractData) (a : jsstring) (e : exn) :
  let target p := MemFS.normalize (MemFS.join2 (outputDir config) p) in
  let label := Some (template (ContractName cd) ++ js "_Proxy") in
  let final := final_state (P := MemFS.platform) config s in
  config_address config <> [] ->
  fetch_at (P := MemFS.platform) config (config_address config) s
  = (Return cd, s) ->
  Proxy cd = Some (js "1") -> Implementation cd = Some a -> a <> [] ->
  write_then_save (P := MemFS.platform) config (config_address config) cd
    label s = (Return tt, s2) ->
  fetch_at (P := MemFS.platform) config a s2 = (Throw e, s2) ->
  exit_status (P := MemFS.platform) config s = 1
  /\ final = s2
  /\ intents (P := MemFS.platform) config s = [proxy_intent config cd]
  /\ (exists sources entries,
        parseSourceCode (SourceCode cd) (ContractName cd) = Return sources
        /\ Object_entries sources = Return entries
        /\ forall before p d after,
             entries = before ++ (p, d) :: after ->
             (forall q, In q (map fst after) -> target q <> target p) ->
             target p <> target (js "results.json") ->
             exists text,
               file_content d = Return (VString text)
               /\ MemFS.lookup (target p) (MemFS.files final) = Some text)
  /\ (exists result sw allResults allResults' text,
        let r := {| address := config_address config; written := result |} in
        writeContractFiles (P := MemFS.platform) cd (outputDir config) label s
        = (Return result, sw)
        /\ load_results (P := MemFS.platform)
             (MemFS.join2 (outputDir config) (js "results.json")) sw
           = (Return allResults, sw)
        /\ upsert allResults r (MemFS.clock sw) = Return allResults'
        /\ JSON_stringify allResults' = VString text
        /\ MemFS.lookup (target (js "results.json")) (MemFS.files final)
           = Some text
        /\ forall m,
             allResults = VObject m ->
             config_address config <> js "__proto__"
             \/ obj_get (config_address config) m <> None ->
             exists m',
               allResults' = VObject m'
               /\ obj_get (config_address config) m'
                  = Some (manifest_entry r (MemFS.clock sw))).
Proof.
  intros target label final A F HP HI Ha W F2.
  assert (X : is_proxy cd = true) by (apply is_proxy_true; eauto).
  assert (M : main (P := MemFS.platform) config (s, [])
              = (1, (s2, [proxy_intent config cd]))).
  { rewrite (@main_proxy MemFS.state MemFS.platform config s s cd A F X).
    fold label. rewrite W, HI. simpl template. now rewrite F2. }
  assert (E : final = s2) by (unfold final, final_state; now rewrite M).
  split; [unfold exit_status; now rewrite M|].
  split; [exact E|].
  split; [unfold intents; now rewrite M|].
  rewrite E. clear M E final.
  revert W. unfold write_then_save. unfold bind at 1.
  destruct (writeContractFiles (P := MemFS.platform) cd (outputDir config)
              label s) as [[result|x] sw] eqn:WF; [|discriminate].
  intros SV.
  destruct (load_results (P := MemFS.platform)
              (MemFS.join2 (outputDir config) (js "results.json")) sw)
    as [[allResults|x] sl] eqn:L.
  2:{ destruct (@load_results_total MemFS.state MemFS.platform
                  (MemFS.join2 (outputDir config) (js "results.json")) sw)
        as (v & s' & L'). congruence. }
  assert (sl = sw) by (eapply load_results_state; eauto). subst sl.
  rewrite (@saveResults_loaded MemFS.state MemFS.platform (outputDir config)
             {| address := config_address config; written := result |}
             sw sw allResults L) in SV.
  cbn [Date_toISOString path_join fs_writeFileSync MemFS.platform] in SV.
  destruct (upsert allResults
              {| address := config_address config; written := result |}
              (MemFS.clock sw)) as [allResults'|x] eqn:U; [|discriminate].
  apply writeFileSync_files in SV. destruct SV as (text & J & SF & _).
  destruct (@writeContractFiles_steps _ _ _ _ _ _ WF)
    as (sources & entries & s0 & PS & OE & F0 & WE).
  split.
  - exists sources, entries. split; [exact PS|]. split; [exact OE|].
    intros before p d after Een N NM.
    destruct (@write_entries_files _ _ _ _ _ WE before p d after Een N)
      as (t & C & K).
    exists t. split; [exact C|]. rewrite SF.
    rewrite lookup_store_other by exact NM. exact K.
  - exists result, sw, allResults, allResults', text.
    split; [reflexivity|]. split; [exact L|]. split; [exact U|].
    split; [exact J|]. split; [rewrite SF; apply lookup_store_same|].
    intros m -> H. rewrite upsert_object in U by exact H.
    inversion U; subst allResults'. eexists. split; [reflexivity|].
    apply obj_get_set_same.
Qed.

Lemma partial_success_witness :
  let config := sample_config (js "0xPROXY") in
  let target p := MemFS.normalize (MemFS.join2 (outputDir config) p) in
  let label := Some (template (ContractName proxy_record) ++ js "_Proxy") in
  let final := final_state (P := MemFS.platform) config failing_world in
  exit_status (P := MemFS.platform) config failing_world = 1
  /\ final = after_proxy
  /\ intents (P := MemFS.platform) config failing_world
     = [proxy_intent config proxy_record]
  /\ (exists sources entries,
        parseSourceCode (SourceCode proxy_record) (ContractName proxy_record)
        = Return sources
        /\ Object_entries sources = Return entries
        /\ forall before p d after,
             entries = before ++ (p, d) :: after ->
             (forall q, In q (map fst after) -> target q <> target p) ->
             target p <> target (js "results.json") ->
             exists text,
               file_content d = Return (VString text)
               /\ MemFS.lookup (target p) (MemFS.files final) = Some text)
  /\ (exists result sw allResults allResults' text,
        let r := {| address := config_address config; written := result |} in
        writeContractFiles (P := MemFS.platform) proxy_record (outputDir config)
          label failing_world = (Return result, sw)
        /\ load_results (P := MemFS.platform)
             (MemFS.join2 (outputDir config) (js "results.json")) sw
           = (Return allResults, sw)
        /\ upsert allResults r (MemFS.clock sw) = Return allResults'
        /\ JSON_stringify allResults' = VString text
        /\ MemFS.lookup (target (js "results.json")) (MemFS.files final)
           = Some text
        /\ forall m,
             allResults = VObject m ->
             config_address config <> js "__proto__"
             \/ obj_get (config_address config) m <> None ->
             exists m',
               allResults' = VObject m'
               /\ obj_get (config_address config) m'
                  = Some (manifest_entry r (MemFS.clock sw))).
Proof.
  apply (@partial_success (sample_config (js "0xPROXY")) failing_world
           after_proxy proxy_record (js "0xIMPL")
           (Error (js "API Error: NOTOK - Invalid Address format"))).
  - discriminate.
  - reflexivity.
  - reflexivity.
  - reflexivity.
  - discriminate.
  - vm_compute; reflexivity.
  - vm_compute; reflexivity.
Defined.

(** After the failed run of [partial_success_witness] the proxy's source
    file is on disk and the manifest holds the proxy's entry. *)
Example partial_success_in_memory :
  let s := final_state (P := MemFS.platform) (sample_config (js "0xPROXY"))
             failing_world in
  MemFS.lookup (js "contracts/Vault.sol") (MemFS.files s)
  = Some (js "contract Vault {}")
  /\ exists text entry,
       MemFS.lookup (js "contracts/results.json") (MemFS.files s) = Some text
       /\ JSON_parse text = Return (VObject [(js "0xPROXY", VObject entry)])
       /\ obj_get (js "directory") entry = Some (VString (js "Vault_Proxy"))
       /\ obj_get (js "files") entry = Some (VArray [VString (js "Vault.sol")]).
Proof.
  split; [vm_compute; reflexivity|].
  do 2 eexists. split; [vm_compute; reflexivity|].
  split; [vm_compute; reflexivity|]. split; vm_compute; reflexivity.
Qed.



(** The same contract fetched as [0xAbCd] and then as [0xabcd] ends up twice
    in the manifest; fetched twice as [0xAbCd], once. *)
Example case_variants_in_memory :
  let w := world [(js "0xAbCd", Return impl_record);
                  (js "0xabcd", Return impl_record)] in
  let run a s := final_state (P := MemFS.platform) (sample_config a) s in
  let manifest s :=
    match MemFS.lookup (js "contracts/results.json") (MemFS.files s) with
    | Some text => JSON_parse text
    | None => Throw (Error [])
    end in
  (exists m, manifest (run (js "0xabcd") (run (js "0xAbCd") w)) = Return (VObject m)
             /\ map fst m = [js "0xAbCd"; js "0xabcd"])
  /\ (exists m, manifest (run (js "0xAbCd") (run (js "0xAbCd") w)) = Return (VObject m)
                /\ map fst m = [js "0xAbCd"]).
Proof.
  split; eexists; (split; [vm_compute; reflexivity|]); vm_compute; reflexivity.
Qed.

(** * Further properties of the script *)

(** ** [parseArgs] *)

Lemma flag_of_spelled (f : Cli.setting) (long : bool) :
  Cli.flag_of (Cli.spelled f long) = Some f.
Proof. destruct f, long; reflexivity. Qed.


Lemma get_set_same (f : Cli.setting) (v : option jsstring) (c : Cli.config) :
  Cli.get f (Cli.set f v c) = v.
Proof. destruct f; reflexivity. Qed.

Lemma get_set_other (f g : Cli.setting) (v : option jsstring) (c : Cli.config) :
  f <> g -> Cli.get f (Cli.set g v c) = Cli.get f c.
Proof. destruct f, g; intros H; try reflexivity; contradiction. Qed.

(** Flag and value pairs at the head of the arguments are assigned one
    after the other. *)
Lemma parse_loop_render (opts : list (Cli.setting * bool * jsstring))
    (c : Cli.config) (rest : list jsstring) :
  Cli.parse_loop c (Cli.render opts ++ rest)
  = Cli.parse_loop (Cli.apply_all opts c) rest.
Proof.
  revert c. induction opts as [|[[f long] v] opts IH]; intros c; [reflexivity|].
  simpl. rewrite flag_of_spelled. apply IH.
Qed.

(** A field keeps its value as long as no argument is its flag; for the
    address this needs an address that is set, since otherwise a positional
    argument fills it. *)
Lemma parse_loop_keeps (f : Cli.setting) (args : list jsstring)
    (c c' : Cli.config) :
  (f = Cli.Address -> truthy_str (Cli.address c) = true) ->
  (forall a, In a args -> Cli.flag_of a <> Some f) ->
  Cli.parse_loop c args = Cli.Parsed c' ->
  Cli.get f c' = Cli.get f c.
Proof.
  remember (length args) as n eqn:L.
  assert (B : length args <= n) by lia. clear L.
  revert args c B. induction n as [|n IH]; intros args c B A NF.
  - destruct args; [|simpl in B; lia]. simpl. now intros [= <-].
  - destruct args as [|a rest]; [simpl; now intros [= <-]|].
    simpl in B. simpl. destruct (Cli.flag_of a) as [g|] eqn:G.
    + assert (Hg : f <> g).
      { intros ->. apply (NF a); [now left | exact G]. }
      assert (A' : forall v, f = Cli.Address ->
                             truthy_str (Cli.address (Cli.set g v c)) = true).
      { intros v E. subst f. destruct g; try contradiction; simpl; auto. }
      destruct rest as [|v rest'].
      * intros [= <-]. now apply get_set_other.
      * intros H. rewrite (IH rest' (Cli.set g (Some v) c)); auto.
        -- now apply get_set_other.
        -- simpl in B. lia.
        -- intros x Hx. apply NF. right; now right.
    + destruct (Cli.is_help a); [discriminate|].
      assert (K : Cli.get f (Cli.positional a c) = Cli.get f c).
      { unfold Cli.positional.
        destruct (negb (truthy_str (Cli.address c)) && truthy (VString a)
                  && negb (startsWith a (js "-"))) eqn:E; [|reflexivity].
        destruct f; try reflexivity.
        rewrite (A eq_refl) in E. discriminate. }
      intros H. rewrite (IH rest (Cli.positional a c)); auto.
      * lia.
      * intros E. specialize (A E). unfold Cli.positional.
        rewrite A. exact A.
      * intros x Hx. apply NF. now right.
Qed.

(** X1: options given as pairs of a flag, in its long or short spelling,
    and a value are assigned from left to right, so that the last
    occurrence of an option wins; the value is taken as it stands, also when
    it is spelled like a flag or like [--help]. *)
Theorem parseArgs_pairs (node script : jsstring)
    (opts : list (Cli.setting * bool * jsstring)) (e : Cli.env) :
  Cli.parseArgs (node :: script :: Cli.render opts) e
  = Cli.Parsed (Cli.apply_all opts (Cli.defaults e))
  /\ (forall f long v,
        exists c, Cli.parseArgs (node :: script
                                 :: Cli.render (opts ++ [(f, long, v)])) e
                  = Cli.Parsed c
                  /\ Cli.get f c = Some v).
Proof.
  unfold Cli.parseArgs. simpl skipn. split.
  - rewrite <- (app_nil_r (Cli.render opts)). now rewrite parse_loop_render.
  - intros f long v. eexists. split.
    + rewrite <- (app_nil_r (Cli.render _)). rewrite parse_loop_render.
      reflexivity.
    + unfold Cli.apply_all. rewrite fold_left_app. simpl. apply get_set_same.
Qed.

(** X2: [--help] or [-h] in the place of a flag ends the process with
    status 0, whatever follows it and whatever was assigned before; in the
    place of a value it is a value. *)
Theorem parseArgs_help (node script help : jsstring)
    (opts : list (Cli.setting * bool * jsstring)) (rest : list jsstring)
    (e : Cli.env) :
  help = js "--help" \/ help = js "-h" ->
  Cli.parseArgs (node :: script :: Cli.render opts ++ help :: rest) e
  = Cli.Exited 0
  /\ (forall f long,
        exists c, Cli.parseArgs (node :: script
                                 :: Cli.render (opts ++ [(f, long, help)])) e
                  = Cli.Parsed c
                  /\ Cli.get f c = Some help).
Proof.
  intros H. unfold Cli.parseArgs. simpl skipn. split.
  - rewrite parse_loop_render. destruct H as [-> | ->]; reflexivity.
  - intros f long. eexists. split.
    + rewrite <- (app_nil_r (Cli.render _)). rewrite parse_loop_render.
      reflexivity.
    + unfold Cli.apply_all. rewrite fold_left_app. simpl. apply get_set_same.
Qed.

Lemma parseArgs_help_witness :
  Cli.parseArgs (js "node" :: js "index.js"
                 :: Cli.render [(Cli.Address, false, js "0xAB")]
                 ++ js "-h" :: [js "--no-such-flag"]) sample_env
  = Cli.Exited 0
  /\ (forall f long,
        exists c, Cli.parseArgs (js "node" :: js "index.js"
                                 :: Cli.render ([(Cli.Address, false, js "0xAB")]
                                                ++ [(f, long, js "-h")])) sample_env
                  = Cli.Parsed c
                  /\ Cli.get f c = Some (js "-h")).
Proof.
  apply (@parseArgs_help (js "node") (js "index.js") (js "-h")
           [(Cli.Address, false, js "0xAB")] [js "--no-such-flag"] sample_env).
  right; reflexivity.
Defined.

(** X3: a flag that ends the command line has no value to take: its field
    becomes [undefined], whatever the environment or an earlier flag gave
    it, and the other fields keep what the earlier pairs assigned. *)
Theorem parseArgs_dangling_flag (node script : jsstring)
    (opts : list (Cli.setting * bool * jsstring)) (f : Cli.setting)
    (long : bool) (e : Cli.env) :
  exists c,
    Cli.parseArgs (node :: script :: Cli.render opts ++ [Cli.spelled f long]) e
    = Cli.Parsed c
    /\ Cli.get f c = None
    /\ forall g, g <> f ->
         Cli.get g c = Cli.get g (Cli.apply_all opts (Cli.defaults e)).
Proof.
  unfold Cli.parseArgs. simpl skipn. rewrite parse_loop_render. simpl.
  rewrite flag_of_spelled. eexists. split; [reflexivity|]. split.
  - apply get_set_same.
  - intros g Hg. now apply get_set_other.
Qed.

(** X4: an address that is set, by [CONTRACT_ADDRESS] or otherwise, is
    changed by [-a] and [--address] only: no positional argument replaces
    it. *)
Theorem parseArgs_address_kept (argv : list jsstring) (e : Cli.env)
    (a : jsstring) (c : Cli.config) :
  Cli.CONTRACT_ADDRESS e = Some a -> a <> [] ->
  (forall x, In x (skipn 2 argv) -> x <> js "-a" /\ x <> js "--address") ->
  Cli.parseArgs argv e = Cli.Parsed c ->
  Cli.address c = Some a.
Proof.
  intros E Ha NF H. unfold Cli.parseArgs in H.
  assert (D : Cli.address (Cli.defaults e) = Some a).
  { unfold Cli.defaults, Cli.or_default. simpl Cli.address. rewrite E.
    destruct a; [contradiction | reflexivity]. }
  change (Cli.get Cli.Address c = Some a). rewrite <- D.
  apply (@parse_loop_keeps Cli.Address (skipn 2 argv) (Cli.defaults e) c); auto.
  - intros _. rewrite D. destruct a; [contradiction | reflexivity].
  - intros x Hx G. destruct (NF x Hx) as [N1 N2].
    unfold Cli.flag_of in G.
    destruct (str_eqb x (js "--api-key") || str_eqb x (js "-k")); [discriminate|].
    destruct (str_eqb x (js "--address")) eqn:E1;
      [apply str_eqb_eq in E1; contradiction|].
    destruct (str_eqb x (js "-a")) eqn:E2;
      [apply str_eqb_eq in E2; contradiction|].
    simpl in G.
    repeat match type of G with
           | (if ?b then _ else _) = _ => destruct b; try discriminate
           end.
Qed.

Lemma parseArgs_address_kept_witness :
  Cli.address
    {| Cli.apiKey := Some (js "K"); Cli.address := Some (js "0xENV");
       Cli.apiUrl := Some (js "https://api.etherscan.io/v2/api");
       Cli.chainId := Some (js "1"); Cli.outputDir := Some (js "./contracts") |}
  = Some (js "0xENV").
Proof.
  apply (@parseArgs_address_kept
           [js "node"; js "index.js"; js "0xARG"; js "-k"; js "K"]
           {| Cli.ETHERSCAN_API_KEY := None;
              Cli.CONTRACT_ADDRESS := Some (js "0xENV");
              Cli.API_URL := None; Cli.CHAIN_ID := None;
              Cli.OUTPUT_DIR := None |}
           (js "0xENV")).
  - reflexivity.
  - discriminate.
  - intros x [<-|[<-|[<-|[]]]]; split; discriminate.
  - reflexivity.
Defined.



(** X6: a setting other than the address is changed by its own flag only.
    Without [-u]/[--api-url], [-c]/[--chain-id] and [-o]/[--output] the
    configuration holds [API_URL], [CHAIN_ID] and [OUTPUT_DIR], or the
    built-in default where the variable is unset or empty: none of the
    three is empty or [undefined]. *)
Theorem parseArgs_defaults_kept (argv : list jsstring) (e : Cli.env)
    (c : Cli.config) :
  (forall x, In x (skipn 2 argv) ->
     Cli.flag_of x <> Some Cli.ApiUrl /\ Cli.flag_of x <> Some Cli.ChainId
     /\ Cli.flag_of x <> Some Cli.Output) ->
  Cli.parseArgs argv e = Cli.Parsed c ->
  Cli.apiUrl c
  = Some (Cli.or_default (Cli.API_URL e) (js "https://api.etherscan.io/v2/api"))
  /\ Cli.chainId c = Some (Cli.or_default (Cli.CHAIN_ID e) (js "1"))
  /\ Cli.outputDir c
     = Some (Cli.or_default (Cli.OUTPUT_DIR e) (js "./contracts"))
  /\ truthy_str (Cli.apiUrl c) = true
  /\ truthy_str (Cli.chainId c) = true
  /\ truthy_str (Cli.outputDir c) = true.
Proof.
  intros NF H. unfold Cli.parseArgs in H.
  assert (U : Cli.get Cli.ApiUrl c = Cli.get Cli.ApiUrl (Cli.defaults e)).
  { apply (@parse_loop_keeps Cli.ApiUrl (skipn 2 argv) (Cli.defaults e) c);
      [discriminate | intros x Hx; apply (NF x Hx) | exact H]. }
  assert (I : Cli.get Cli.ChainId c = Cli.get Cli.ChainId (Cli.defaults e)).
  { apply (@parse_loop_keeps Cli.ChainId (skipn 2 argv) (Cli.defaults e) c);
      [discriminate | intros x Hx; apply (NF x Hx) | exact H]. }
  assert (O : Cli.get Cli.Output c = Cli.get Cli.Output (Cli.defaults e)).
  { apply (@parse_loop_keeps Cli.Output (skipn 2 argv) (Cli.defaults e) c);
      [discriminate | intros x Hx; apply (NF x Hx) | exact H]. }
  simpl in U, I, O. rewrite U, I, O.
  assert (T : forall v d, d <> [] ->
                truthy_str (Some (Cli.or_default v d)) = true).
  { intros v d Hd. unfold Cli.or_default.
    destruct (truthy_str v) eqn:E.
    - destruct v as [x|]; [exact E | discriminate].
    - unfold truthy_str. simpl. now apply truthy_nonempty. }
  repeat split; apply T; discriminate.
Qed.

Lemma parseArgs_defaults_kept_witness :
  Some (js "https://api.etherscan.io/v2/api")
  = Some (Cli.or_default (Cli.API_URL sample_env)
            (js "https://api.etherscan.io/v2/api"))
  /\ Some (js "137") = Some (Cli.or_default (Cli.CHAIN_ID sample_env) (js "1"))
  /\ Some (js "./contracts")
     = Some (Cli.or_default (Cli.OUTPUT_DIR sample_env) (js "./contracts"))
  /\ truthy_str (Some (js "https://api.etherscan.io/v2/api")) = true
  /\ truthy_str (Some (js "137")) = true
  /\ truthy_str (Some (js "./contracts")) = true.
Proof.
  apply (@parseArgs_defaults_kept
           [js "node"; js "index.js"; js "-k"; js "K"; js "0xAB"]
           sample_env
           {| Cli.apiKey := Some (js "K"); Cli.address := Some (js "0xAB");
              Cli.apiUrl := Some (js "https://api.etherscan.io/v2/api");
              Cli.chainId := Some (js "137");
              Cli.outputDir := Some (js "./contracts") |}).
  - intros x [<-|[<-|[<-|[]]]]; repeat split; discriminate.
  - reflexivity.
Defined.

(** ** [httpsGet] and [fetchContract] *)

Lemma fold_left_append (chunks : list jsstring) (data : jsstring) :
  fold_left (fun data chunk => data ++ chunk) chunks data = data ++ concat chunks.
Proof.
  revert data. induction chunks as [|c chunks IH]; intros data; simpl.
  - now rewrite app_nil_r.
  - now rewrite IH, app_assoc.
Qed.

Section Fetching.

Context {S : Type} {T : Transport S}.

Lemma httpsGet_answered (url : jsstring) (s s' : S) (statusCode : N)
    (chunks : list jsstring) :
  https_get url s = (Answered statusCode chunks, s') ->
  Explorer.httpsGet url s
  = (if N.eqb statusCode 200 then Return (concat chunks)
     else Throw (Error (js "HTTP " ++ decimal statusCode ++ js ": "
                        ++ concat chunks)), s').
Proof.
  intros H. unfold Explorer.httpsGet. rewrite H, fold_left_append. simpl.
  now destruct (N.eqb statusCode 200).
Qed.

(** What [fetchContract] does with the body of an answer with status 200. *)
Lemma fetchContract_ok (apiUrl a apiKey chainId : jsstring) (s s' : S)
    (chunks : list jsstring) :
  https_get (Explorer.request_url apiUrl a apiKey chainId) s
  = (Answered 200 chunks, s') ->
  Explorer.fetchContract apiUrl a apiKey chainId s
  = (Explorer.read_response (concat chunks), s').
Proof.
  intros H. unfold Explorer.fetchContract, bind.
  now rewrite (httpsGet_answered _ _ H).
Qed.

(** X7: [httpsGet] resolves exactly when the exchange ends with status
    200; any other status, a redirect included, rejects.  It resolves with
    the strings that the [data] events appended, joined in the order of
    their arrival. *)
Theorem httpsGet_resolves (url body : jsstring) (s s' : S) :
  Explorer.httpsGet url s = (Return body, s')
  <-> exists chunks, https_get url s = (Answered 200 chunks, s')
                     /\ body = concat chunks.
Proof.
  split.
  - unfold Explorer.httpsGet.
    destruct (https_get url s) as [[e|statusCode chunks] s1]; [discriminate|].
    destruct (N.eqb statusCode 200) eqn:E; [|discriminate].
    apply N.eqb_eq in E. subst statusCode. rewrite fold_left_append.
    intros H. inversion H; subst. exists chunks. split; reflexivity.
  - intros (chunks & H & ->). now rewrite (httpsGet_answered _ _ H).
Qed.

(** X8: an answer with a status other than 200 is not parsed:
    [fetchContract] throws [HTTP <status>: <body>], whatever the body says;
    a refused exchange throws the error it was refused with. *)
Theorem fetchContract_http_error (apiUrl a apiKey chainId : jsstring) (s s' : S) :
  (forall statusCode chunks,
     https_get (Explorer.request_url apiUrl a apiKey chainId) s
     = (Answered statusCode chunks, s') ->
     statusCode <> 200%N ->
     Explorer.fetchContract apiUrl a apiKey chainId s
     = (Throw (Error (js "HTTP " ++ decimal statusCode ++ js ": "
                      ++ concat chunks)), s'))
  /\ (forall e,
        https_get (Explorer.request_url apiUrl a apiKey chainId) s
        = (Refused e, s') ->
        Explorer.fetchContract apiUrl a apiKey chainId s = (Throw e, s')).
Proof.
  split.
  - intros statusCode chunks H N. unfold Explorer.fetchContract, bind.
    rewrite (httpsGet_answered _ _ H).
    apply N.eqb_neq in N. now rewrite N.
  - intros e H. unfold Explorer.fetchContract, bind, Explorer.httpsGet.
    now rewrite H.
Qed.

(** X9: from an answer with status 200 whose body is an object with
    [status] equal to the string ['1'] and an array as [result],
    [fetchContract] returns the first element of the array and ignores the
    others. *)
Theorem fetchContract_first_element (apiUrl a apiKey chainId : jsstring)
    (s s' : S) (chunks : list jsstring) (o : object) (r : value)
    (others : list value) :
  https_get (Explorer.request_url apiUrl a apiKey chainId) s
  = (Answered 200 chunks, s') ->
  JSON_parse (concat chunks) = Return (VObject o) ->
  obj_get (js "status") o = Some (VString (js "1")) ->
  obj_get (js "result") o = Some (VArray (r :: others)) ->
  Explorer.fetchContract apiUrl a apiKey chainId s = (Return r, s').
Proof.
  intros H J St R. rewrite (fetchContract_ok _ _ _ _ _ H).
  unfold Explorer.read_response. rewrite J. simpl. rewrite St. simpl.
  rewrite R. reflexivity.
Qed.

(** X10: unless [status] is the string ['1'], the body of an answer with
    status 200 makes [fetchContract] throw: the number [1], a missing
    status or a body that is not an object do not pass.  When [message] and
    [result] are strings the error reads [API Error: <message> - <result>]. *)
Theorem fetchContract_status_strict (apiUrl a apiKey chainId : jsstring)
    (s s' : S) (chunks : list jsstring) (data : value) :
  https_get (Explorer.request_url apiUrl a apiKey chainId) s
  = (Answered 200 chunks, s') ->
  JSON_parse (concat chunks) = Return data ->
  get_property data (js "status") <> Return (VString (js "1")) ->
  (exists e, Explorer.fetchContract apiUrl a apiKey chainId s = (Throw e, s'))
  /\ (forall o m r,
        data = VObject o ->
        obj_get (js "message") o = Some (VString m) ->
        obj_get (js "result") o = Some (VString r) ->
        Explorer.fetchContract apiUrl a apiKey chainId s
        = (Throw (Error (js "API Error: " ++ m ++ js " - " ++ r)), s')).
Proof.
  intros H J St. rewrite (fetchContract_ok _ _ _ _ _ H).
  unfold Explorer.read_response. rewrite J. simpl.
  destruct (get_property data (js "status")) as [status|e] eqn:G; simpl.
  - assert (N : strict_eq_string status (js "1") = false).
    { destruct status; try reflexivity. simpl.
      destruct (str_eqb s0 (js "1")) eqn:E; [|reflexivity].
      apply str_eqb_eq in E. subst s0. contradiction. }
    rewrite N. simpl. split.
    + destruct (get_property data (js "message")) as [m|e]; simpl; [|eauto].
      destruct (ToString m) as [m'|e]; simpl; [|eauto].
      destruct (get_property data (js "result")) as [r|e]; simpl; [|eauto].
      destruct (ToString r) as [r'|e]; simpl; eauto.
    + intros o m r -> M R. simpl. rewrite M, R. reflexivity.
  - split; [eauto|]. intros o m r E _ _. subst data. simpl in G.
    destruct (obj_get (js "status") o); discriminate.
Qed.

(** X11: when [status] is ['1'] but [result] is missing, falsy or an empty
    array, [fetchContract] throws [No contract data returned]. *)
Theorem fetchContract_no_data (apiUrl a apiKey chainId : jsstring)
    (s s' : S) (chunks : list jsstring) (o : object) :
  https_get (Explorer.request_url apiUrl a apiKey chainId) s
  = (Answered 200 chunks, s') ->
  JSON_parse (concat chunks) = Return (VObject o) ->
  obj_get (js "status") o = Some (VString (js "1")) ->
  (obj_get (js "result") o = None
   \/ (exists x, obj_get (js "result") o = Some x /\ truthy x = false)
   \/ obj_get (js "result") o = Some (VArray [])) ->
  Explorer.fetchContract apiUrl a apiKey chainId s
  = (Throw (Error (js "No contract data returned")), s').
Proof.
  intros H J St R. rewrite (fetchContract_ok _ _ _ _ _ H).
  unfold Explorer.read_response. rewrite J. simpl. rewrite St. simpl.
  destruct R as [R|[(x & R & F)|R]]; rewrite R; simpl;
    [| rewrite F |]; reflexivity.
Qed.

End Fetching.

Lemma fetchContract_http_error_witness :
  Explorer.fetchContract (T := MemNet.transport)
    (js "https://api.etherscan.io/v2/api") (js "0xAB") (js "KEY") (js "1")
    (net 503 [jq "{'status':'1',"; jq "'result':[{}]}"])
  = (Throw (Error (js "HTTP 503: " ++ jq "{'status':'1','result':[{}]}")),
     net 503 [jq "{'status':'1',"; jq "'result':[{}]}"])
  /\ Explorer.fetchContract (T := MemNet.transport)
       (js "https://api.etherscan.io/v2/api") (js "0xCD") (js "KEY") (js "1")
       (net 200 [])
     = (Throw (SystemError (js "ENOTFOUND")), net 200 []).
Proof.
  split.
  - apply (proj1 (@fetchContract_http_error MemNet.state MemNet.transport
                    (js "https://api.etherscan.io/v2/api") (js "0xAB") (js "KEY")
                    (js "1") _ _) 503%N
                 [jq "{'status':'1',"; jq "'result':[{}]}"]).
    + reflexivity.
    + discriminate.
  - apply (proj2 (@fetchContract_http_error MemNet.state MemNet.transport
                    (js "https://api.etherscan.io/v2/api") (js "0xCD") (js "KEY")
                    (js "1") _ _)).
    reflexivity.
Defined.

Lemma fetchContract_first_element_witness :
  Explorer.fetchContract (T := MemNet.transport)
    (js "https://api.etherscan.io/v2/api") (js "0xAB") (js "KEY") (js "1")
    (net 200 [jq "{'status':'1','message':'OK',";
              jq "'result':[{'ContractName':'A'},{'ContractName':'B'}]}"])
  = (Return (VObject [(js "ContractName", VString (js "A"))]),
     net 200 [jq "{'status':'1','message':'OK',";
              jq "'result':[{'ContractName':'A'},{'ContractName':'B'}]}"]).
Proof.
  eapply (@fetchContract_first_element MemNet.state MemNet.transport).
  - reflexivity.
  - vm_compute; reflexivity.
  - reflexivity.
  - reflexivity.
Defined.

Lemma fetchContract_status_strict_witness :
  exists e,
    Explorer.fetchContract (T := MemNet.transport)
      (js "https://api.etherscan.io/v2/api") (js "0xAB") (js "KEY") (js "1")
      (net 200 [jq "{'status':1,'result':[{'ContractName':'A'}]}"])
    = (Throw e, net 200 [jq "{'status':1,'result':[{'ContractName':'A'}]}"]).
Proof.
  refine (proj1 (@fetchContract_status_strict MemNet.state MemNet.transport
                   (js "https://api.etherscan.io/v2/api") (js "0xAB") (js "KEY")
                   (js "1") _ _
                   [jq "{'status':1,'result':[{'ContractName':'A'}]}"] _ _ _ _)).
  - reflexivity.
  - vm_compute; reflexivity.
  - vm_compute. discriminate.
Defined.

Lemma fetchContract_no_data_witness :
  Explorer.fetchContract (T := MemNet.transport)
    (js "https://api.etherscan.io/v2/api") (js "0xAB") (js "KEY") (js "1")
    (net 200 [jq "{'status':'1','message':'OK','result':[]}"])
  = (Throw (Error (js "No contract data returned")),
     net 200 [jq "{'status':'1','message':'OK','result':[]}"]).
Proof.
  eapply (@fetchContract_no_data MemNet.state MemNet.transport).
  - reflexivity.
  - vm_compute; reflexivity.
  - reflexivity.
  - right; right; reflexivity.
Defined.

(** ** [writeContractFiles] *)

Lemma actual_contract_name_nonempty (label : option jsstring) (cd : ContractData) :
  actual_contract_name label cd <> [].
Proof.
  unfold actual_contract_name.
  destruct (truthy_str label) eqn:L.
  - destruct label as [[|c l]|];
      try (vm_compute in L; discriminate); simpl; discriminate.
  - destruct (truthy_str (ContractName cd)) eqn:N; [|discriminate].
    destruct (ContractName cd) as [[|c l]|];
      try (vm_compute in N; discriminate); simpl; discriminate.
Qed.

Section Writing.

Context {S : Type} {P : Platform S}.

Lemma write_entries_list (dir : jsstring) (es : list (jsstring * value))
    (s s' : S) (l : list jsstring) :
  write_entries dir es s = (Return l, s') -> l = map fst es.
Proof.
  revert s s' l. induction es as [|e es IH]; intros s s' l; simpl.
  - unfold ret. now intros [= <- _].
  - unfold bind at 1. destruct (write_entry dir e s) as [[u|x] s1]; [|discriminate].
    unfold bind at 1.
    destruct (write_entries dir es s1) as [[l'|x] s2] eqn:W; [|discriminate].
    unfold ret. intros [= <- _]. f_equal. eapply IH; eauto.
Qed.

(** Writing the entries of [es1 ++ es2] is writing those of [es1] and then
    those of [es2]. *)
Lemma write_entries_app (dir : jsstring) (es1 es2 : list (jsstring * value)) (s : S) :
  write_entries dir (es1 ++ es2) s
  = match write_entries dir es1 s with
    | (Return l1, s1) =>
        match write_entries dir es2 s1 with
        | (Return l2, s2) => (Return (l1 ++ l2), s2)
        | (Throw x, s2) => (Throw x, s2)
        end
    | (Throw x, s1) => (Throw x, s1)
    end.
Proof.
  revert s. induction es1 as [|e es1 IH]; intros s; simpl.
  - unfold ret. now destruct (write_entries dir es2 s) as [[l2|x] s2].
  - unfold bind, ret. destruct (write_entry dir e s) as [[u|x] s1]; [|reflexivity].
    rewrite IH.
    destruct (write_entries dir es1 s1) as [[l1|x] s2]; [|reflexivity].
    now destruct (write_entries dir es2 s2) as [[l2|x] s3].
Qed.

(** X12: when [writeContractFiles] returns, [fileList] holds the paths of
    the parsed source map, all of them and in the order of enumeration, in
    which they were written; [fileCount] is their number and [contractDir]
    the output directory. *)
Theorem files_listed (cd : ContractData) (dir : jsstring)
    (label : option jsstring) (s s' : S) (r : WriteResult) :
  writeContractFiles cd dir label s = (Return r, s') ->
  exists sources entries,
    parseSourceCode (SourceCode cd) (ContractName cd) = Return sources
    /\ Object_entries sources = Return entries
    /\ fileList r = map fst entries
    /\ fileCount r = length entries
    /\ contractDir r = dir.
Proof.
  unfold writeContractFiles. unfold bind at 1. unfold lift_result at 1.
  destruct (parseSourceCode (SourceCode cd) (ContractName cd)) as [sources|x];
    [|discriminate].
  unfold bind at 1. destruct (ensure_dir dir s) as [[u|x] s1]; [|discriminate].
  unfold bind at 1. unfold lift_result.
  destruct (Object_entries sources) as [entries|x] eqn:OE; [|discriminate].
  unfold bind.
  destruct (write_entries dir entries s1) as [[l|x] s2] eqn:W; [|discriminate].
  unfold ret. intros [= <- _]. simpl.
  apply write_entries_list in W. subst l.
  exists sources, entries. rewrite length_map. repeat split. exact OE.
Qed.

(** X13: the source files are written in order, and nothing is undone: when
    the write of one entry throws, the exception leaves the state in which
    the entries before it are written, and the entries after it are not
    attempted. *)
Theorem write_entries_partial (dir : jsstring)
    (before after : list (jsstring * value)) (e : jsstring * value)
    (s s1 s2 : S) (l : list jsstring) (x : exn) :
  write_entries dir before s = (Return l, s1) ->
  write_entry dir e s1 = (Throw x, s2) ->
  write_entries dir (before ++ e :: after) s = (Throw x, s2).
Proof.
  intros B E. rewrite write_entries_app, B. simpl.
  unfold bind. now rewrite E.
Qed.

(** X14: the [contractName] argument names the [directoryName] of the
    result and nothing else: the files go directly below the output
    directory, in the same places whatever the label, so that a proxy and
    its implementation share one directory. *)
Theorem label_names_no_directory (cd : ContractData) (dir : jsstring)
    (label label' : option jsstring) (s : S) :
  writeContractFiles cd dir label' s
  = (match fst (writeContractFiles cd dir label s) with
     | Return r =>
         Return {| fileCount := fileCount r;
                   contractDir := contractDir r;
                   metadata := metadata r;
                   abi := abi r;
                   fileList := fileList r;
                   directoryName := actual_contract_name label' cd |}
     | Throw x => Throw x
     end,
     snd (writeContractFiles cd dir label s)).
Proof.
  unfold writeContractFiles, bind, lift_result, ret.
  destruct (parseSourceCode (SourceCode cd) (ContractName cd)) as [sources|x];
    [|reflexivity].
  destruct (ensure_dir dir s) as [[u|x] s1]; [|reflexivity].
  destruct (Object_entries sources) as [entries|x]; [|reflexivity].
  destruct (write_entries dir entries s1) as [[l|x] s2]; reflexivity.
Qed.

(** X15: the [directoryName] of a result, which the manifest records as
    [directory], is never empty: it is the label when that is a non-empty
    string, else the contract name when that is one, else
    [UnknownContract]. *)
Theorem directory_name_nonempty (cd : ContractData) (dir : jsstring)
    (label : option jsstring) (s s' : S) (r : WriteResult) :
  writeContractFiles cd dir label s = (Return r, s') ->
  directoryName r <> []
  /\ (forall l, label = Some l -> l <> [] -> directoryName r = l)
  /\ (label = None \/ label = Some [] ->
      forall n, ContractName cd = Some n -> n <> [] -> directoryName r = n)
  /\ (label = None \/ label = Some [] ->
      ContractName cd = None \/ ContractName cd = Some [] ->
      directoryName r = js "UnknownContract").
Proof.
  intros H.
  assert (D : directoryName r = actual_contract_name label cd).
  { revert H. unfold writeContractFiles. unfold bind at 1. unfold lift_result at 1.
    destruct (parseSourceCode (SourceCode cd) (ContractName cd)) as [sources|x];
      [|discriminate].
    unfold bind at 1. destruct (ensure_dir dir s) as [[u|x] s1]; [|discriminate].
    unfold bind at 1. unfold lift_result.
    destruct (Object_entries sources) as [entries|x]; [|discriminate].
    unfold bind.
    destruct (write_entries dir entries s1) as [[l|x] s2]; [|discriminate].
    unfold ret. now intros [= <- _]. }
  assert (F : forall o, o = None \/ o = Some [] -> truthy_str o = false).
  { intros o [-> | ->]; reflexivity. }
  assert (T : forall o x, o = Some x -> x <> [] ->
                truthy_str o = true /\ template o = x).
  { intros o x -> Hx. split; [|reflexivity].
    unfold truthy_str. simpl of_option. now apply truthy_nonempty. }
  rewrite D. split; [apply actual_contract_name_nonempty|].
  unfold actual_contract_name. split; [|split].
  - intros l E Hl. destruct (T label l E Hl) as [-> ->]. reflexivity.
  - intros L n E Hn. rewrite (F label L).
    destruct (T (ContractName cd) n E Hn) as [-> ->]. reflexivity.
  - intros L N. now rewrite (F label L), (F (ContractName cd) N).
Qed.

(** X16: a malformed ABI does not abort [writeContractFiles].  Whether the
    call returns or throws, and the state it leaves, do not depend on the
    [ABI] field at all: two records that differ in that field only give the
    same outcome, up to the [abi] of the result.  That [abi] is the raw
    string when the field is not JSON, the parsed value when it is, and
    [null] for the notice [Contract source code not verified] and for an
    empty or missing field. *)
Theorem abi_recovered
    (name version optimization runCount evm license proxyFlag impl arguments
       source : option jsstring)
    (dir : jsstring) (label : option jsstring) (s : S) :
  let record field :=
    {| ContractName := name; CompilerVersion := version;
       OptimizationUsed := optimization; Runs := runCount; EVMVersion := evm;
       LicenseType := license; Proxy := proxyFlag; Implementation := impl;
       ConstructorArguments := arguments; SourceCode := source;
       ABI := field |} in
  (forall a a',
     writeContractFiles (record a') dir label s
     = (match fst (writeContractFiles (record a) dir label s) with
        | Return r =>
            Return {| fileCount := fileCount r;
                      contractDir := contractDir r;
                      metadata := metadata r;
                      abi := parse_abi (record a');
                      fileList := fileList r;
                      directoryName := directoryName r |}
        | Throw x => Throw x
        end,
        snd (writeContractFiles (record a) dir label s)))
  /\ (forall r s', writeContractFiles (record None) dir label s = (Return r, s') ->
      forall a, exists r',
        writeContractFiles (record a) dir label s = (Return r', s')
        /\ abi r' = parse_abi (record a))
  /\ (forall a x, a <> [] -> a <> js "Contract source code not verified" ->
      JSON_parse a = Throw x -> parse_abi (record (Some a)) = VString a)
  /\ (forall a v, a <> [] -> a <> js "Contract source code not verified" ->
      JSON_parse a = Return v -> parse_abi (record (Some a)) = v)
  /\ parse_abi (record None) = VNull
  /\ parse_abi (record (Some [])) = VNull
  /\ parse_abi (record (Some (js "Contract source code not verified"))) = VNull.
Proof.
  intros record.
  assert (E : forall a a',
            writeContractFiles (record a') dir label s
            = (match fst (writeContractFiles (record a) dir label s) with
               | Return r =>
                   Return {| fileCount := fileCount r;
                             contractDir := contractDir r;
                             metadata := metadata r;
                             abi := parse_abi (record a');
                             fileList := fileList r;
                             directoryName := directoryName r |}
               | Throw x => Throw x
               end,
               snd (writeContractFiles (record a) dir label s))).
  { intros a a'. unfold writeContractFiles, bind, lift_result, ret.
    cbn [SourceCode ContractName record].
    destruct (parseSourceCode source name) as [sources|x]; [|reflexivity].
    destruct (ensure_dir dir s) as [[u|x] s1]; [|reflexivity].
    destruct (Object_entries sources) as [entries|x]; [|reflexivity].
    destruct (write_entries dir entries s1) as [[l|x] s2]; reflexivity. }
  assert (G : forall a, a <> [] -> a <> js "Contract source code not verified" ->
                truthy_str (Some a)
                && negb (strict_eq_str (Some a)
                           (js "Contract source code not verified")) = true).
  { intros a Ha Hs. unfold truthy_str, strict_eq_str.
    simpl of_option. rewrite truthy_nonempty by assumption.
    now rewrite str_eqb_neq. }
  split; [exact E|]. split; [|split; [|split; [|split; [|split]]]].
  - intros r s' H a. rewrite (E None a), H. simpl. eexists.
    split; reflexivity.
  - intros a x Ha Hs J. unfold parse_abi. cbn [ABI record].
    rewrite (G a Ha Hs). simpl template. now rewrite J.
  - intros a v Ha Hs J. unfold parse_abi. cbn [ABI record].
    rewrite (G a Ha Hs). simpl template. now rewrite J.
  - reflexivity.
  - reflexivity.
  - reflexivity.
Qed.

End Writing.

Lemma files_listed_witness :
  exists sources entries,
    parseSourceCode (SourceCode impl_record) (ContractName impl_record)
    = Return sources
    /\ Object_entries sources = Return entries
    /\ [js "src/VaultLogic.sol"; js "lib/Math.sol"] = map fst entries
    /\ 2 = length entries
    /\ js "./contracts" = js "./contracts".
Proof.
  apply (@files_listed MemFS.state MemFS.platform impl_record (js "./contracts")
           (Some (js "VaultLogic")) proxy_world
           (snd (writeContractFiles (P := MemFS.platform) impl_record
                   (js "./contracts") (Some (js "VaultLogic")) proxy_world))
           {| fileCount := 2;
              contractDir := js "./contracts";
              metadata := make_metadata impl_record;
              abi := parse_abi impl_record;
              fileList := [js "src/VaultLogic.sol"; js "lib/Math.sol"];
              directoryName := js "VaultLogic" |}).
  vm_compute; reflexivity.
Defined.

Lemma write_entries_partial_witness :
  write_entries (P := MemFS.platform) (js "./contracts")
    ([(js "a.sol", VString (js "contract A {}"))]
     ++ (js "b.sol", VObject [(js "content", VString [])])
     :: [(js "c.sol", VString (js "contract C {}"))]) proxy_world
  = (Throw TypeError,
     snd (write_entries (P := MemFS.platform) (js "./contracts")
            [(js "a.sol", VString (js "contract A {}"))] proxy_world)).
Proof.
  apply (@write_entries_partial MemFS.state MemFS.platform (js "./contracts")
           [(js "a.sol", VString (js "contract A {}"))]
           [(js "c.sol", VString (js "contract C {}"))]
           (js "b.sol", VObject [(js "content", VString [])])
           proxy_world
           (snd (write_entries (P := MemFS.platform) (js "./contracts")
                   [(js "a.sol", VString (js "contract A {}"))] proxy_world))
           (snd (write_entries (P := MemFS.platform) (js "./contracts")
                   [(js "a.sol", VString (js "contract A {}"))] proxy_world))
           [js "a.sol"] TypeError);
    vm_compute; reflexivity.
Defined.

Lemma directory_name_nonempty_witness :
  let cd := sample_record (js "Vault") (js "contract Vault {}") (js "0") [] in
  let out := writeContractFiles (P := MemFS.platform) cd (js "./contracts")
               (Some []) proxy_world in
  let r := {| fileCount := 1;
              contractDir := js "./contracts";
              metadata := make_metadata cd;
              abi := parse_abi cd;
              fileList := [js "Vault.sol"];
              directoryName := js "Vault" |} in
  out = (Return r, snd out)
  /\ directoryName r <> []
  /\ directoryName r = js "Vault".
Proof.
  intros cd out r.
  assert (H : out = (Return r, snd out)) by (vm_compute; reflexivity).
  split; [exact H|].
  destruct (@directory_name_nonempty MemFS.state MemFS.platform cd
              (js "./contracts") (Some []) proxy_world (snd out) r H)
    as (N0 & _ & N & _).
  split; [exact N0|].
  apply N; [now right | reflexivity | discriminate].
Defined.

Lemma abi_recovered_witness :
  let cd := {| ContractName := Some (js "A"); CompilerVersion := None;
               OptimizationUsed := None; Runs := None; EVMVersion := None;
               LicenseType := None; Proxy := None; Implementation := None;
               ConstructorArguments := None;
               SourceCode := Some (js "contract A {}");
               ABI := Some (js "[{'type':") |} in
  parse_abi cd = VString (js "[{'type':").
Proof.
  intros cd.
  refine (proj1 (proj2 (proj2
            (@abi_recovered MemFS.state MemFS.platform (Some (js "A")) None
               None None None None None None None (Some (js "contract A {}"))
               (js "./contracts") None proxy_world)))
            (js "[{'type':") SyntaxError _ _ _).
  - discriminate.
  - discriminate.
  - vm_compute; reflexivity.
Defined.

(** ** [saveResults] *)

(** An address that starts with [0x] is no array index. *)
Lemma array_index_hex (k : jsstring) :
  startsWith k (js "0x") = true -> array_index k = None.
Proof.
  destruct k as [|c [|d k]]; try discriminate.
  - simpl. rewrite andb_false_r. discriminate.
  - change (js "0x") with [48%N; 120%N]. simpl.
    rewrite startsWith_nil, andb_true_r, andb_true_iff, !N.eqb_eq.
    intros [-> ->]. reflexivity.
Qed.

Lemma hex_not_length (k : jsstring) :
  startsWith k (js "0x") = true -> str_eqb k (js "length") = false.
Proof.
  destruct k as [|c k]; [discriminate|].
  change (js "0x") with [48%N; 120%N]. simpl. rewrite andb_true_iff, N.eqb_eq.
  intros [-> _]. reflexivity.
Qed.

Section Saving.

Context {S : Type} {P : Platform S}.

(** X17: a manifest file that holds JSON other than an object or an array
    is not reset.  For [null] [saveResults] throws a [TypeError] and writes
    nothing; for a string, a number or a boolean the assignment is without
    effect: the same value is written back and the new entry is lost,
    without an error. *)
Theorem manifest_not_an_object (dir text : jsstring) (r : ContractResults)
    (s s' : S) (v : value) :
  fs_existsSync (path_join dir (js "results.json")) s = true ->
  fs_readFileSync (path_join dir (js "results.json")) s = (Return text, s') ->
  JSON_parse text = Return v ->
  (v = VNull -> saveResults dir r s = (Throw TypeError, s'))
  /\ ((exists b, v = VBool b) \/ (exists x, v = VNumber x)
      \/ (exists t, v = VString t) ->
      saveResults dir r s
      = fs_writeFileSync (path_join dir (js "results.json"))
          (JSON_stringify v) s').
Proof.
  intros X R J.
  assert (L : load_results (path_join dir (js "results.json")) s = (Return v, s')).
  { unfold load_results. rewrite X. unfold try_catch_M, bind, lift_result.
    now rewrite R, J. }
  rewrite (@saveResults_loaded S P dir r _ _ _ L). split.
  - intros ->. reflexivity.
  - intros [[b ->]|[[x ->]|[t ->]]]; reflexivity.
Qed.

(** X18: a manifest file that holds a JSON array is not reset either: an
    address that starts with [0x] names no element of it, so the array is
    written back as it was and the new entry is lost, without an error. *)
Theorem manifest_array_unchanged (dir text : jsstring) (r : ContractResults)
    (s s' : S) (l : list value) :
  fs_existsSync (path_join dir (js "results.json")) s = true ->
  fs_readFileSync (path_join dir (js "results.json")) s = (Return text, s') ->
  JSON_parse text = Return (VArray l) ->
  startsWith (address r) (js "0x") = true ->
  saveResults dir r s
  = fs_writeFileSync (path_join dir (js "results.json"))
      (JSON_stringify (VArray l)) s'.
Proof.
  intros X R J H.
  assert (L : load_results (path_join dir (js "results.json")) s
              = (Return (VArray l), s')).
  { unfold load_results. rewrite X. unfold try_catch_M, bind, lift_result.
    now rewrite R, J. }
  rewrite (@saveResults_loaded S P dir r _ _ _ L). unfold upsert, set_property.
  now rewrite (array_index_hex _ H), (hex_not_length _ H).
Qed.

(** X19: without a manifest file, and likewise when the file exists but
    reading it throws, [saveResults] starts from the empty manifest: it
    writes the manifest that holds the new entry alone.  The one exception
    is the address [__proto__], whose assignment creates no entry: there the
    empty manifest is written. *)
Theorem manifest_fresh (dir : jsstring) (r : ContractResults) (s : S) :
  let fresh fetchedAt :=
    VObject (if str_eqb (address r) (js "__proto__") then []
             else [(address r, manifest_entry r fetchedAt)]) in
  (fs_existsSync (path_join dir (js "results.json")) s = false ->
   saveResults dir r s
   = fs_writeFileSync (path_join dir (js "results.json"))
       (JSON_stringify (fresh (Date_toISOString s))) s)
  /\ (forall s' x,
        fs_existsSync (path_join dir (js "results.json")) s = true ->
        fs_readFileSync (path_join dir (js "results.json")) s = (Throw x, s') ->
        saveResults dir r s
        = fs_writeFileSync (path_join dir (js "results.json"))
            (JSON_stringify (fresh (Date_toISOString s'))) s').
Proof.
  intros fresh.
  assert (U : forall t, upsert (VObject []) r t = Return (fresh t)).
  { intros t. unfold upsert, set_property, inherited_setter, fresh.
    simpl obj_get. rewrite andb_true_r.
    destruct (str_eqb (address r) (js "__proto__")); [reflexivity|].
    now rewrite obj_set_nil. }
  split.
  - intros X.
    assert (L : load_results (path_join dir (js "results.json")) s
                = (Return (VObject []), s)).
    { unfold load_results. now rewrite X. }
    now rewrite (@saveResults_loaded S P dir r _ _ _ L), U.
  - intros s' x X R.
    assert (L : load_results (path_join dir (js "results.json")) s
                = (Return (VObject []), s')).
    { unfold load_results. rewrite X. unfold try_catch_M, bind.
      now rewrite R. }
    now rewrite (@saveResults_loaded S P dir r _ _ _ L), U.
Qed.

End Saving.

(** X20: an upsert keeps the manifest in shape.  Its names stay unique; an
    address that is present keeps its place, so that refetching a contract
    leaves the order of the manifest as it was, and takes the new entry; an
    address that is new, no array index and not [__proto__], goes to the
    end; the address [__proto__], when new, leaves the manifest as it
    was. *)
Theorem upsert_keeps_order (m : object) (r : ContractResults) (t : jsstring) :
  NoDup (map fst m) ->
  exists m',
    upsert (VObject m) r t = Return (VObject m')
    /\ NoDup (map fst m')
    /\ (forall old, obj_get (address r) m = Some old ->
        map fst m' = map fst m
        /\ obj_get (address r) m' = Some (manifest_entry r t))
    /\ (obj_get (address r) m = None -> array_index (address r) = None ->
        address r <> js "__proto__" ->
        m' = m ++ [(address r, manifest_entry r t)])
    /\ (obj_get (address r) m = None -> address r = js "__proto__" -> m' = m).
Proof.
  intros ND. destruct (inherited_setter (address r) m) eqn:I.
  - apply inherited_setter_true in I. destruct I as [I G].
    exists m. split; [now apply upsert_inherited|]. split; [exact ND|].
    split; [intros old G'; congruence|]. split; [intros; contradiction|].
    reflexivity.
  - exists (obj_set (address r) (manifest_entry r t) m).
    split; [unfold upsert, set_property; now rewrite I|].
    split; [now apply obj_set_NoDup|]. split; [|split].
    + intros old G. split; [|apply obj_get_set_same].
      unfold obj_set. rewrite G. apply obj_replace_names.
    + intros G A _. unfold obj_set. now rewrite G, A.
    + intros G E.
      rewrite (proj2 (inherited_setter_true (address r) m) (conj E G)) in I.
      discriminate.
Qed.

Lemma manifest_not_an_object_witness :
  saveResults (P := MemFS.platform) (js "./contracts")
    {| address := js "0xAB"; written := sample_written |}
    (manifest_state (js "null"))
  = (Throw TypeError, manifest_state (js "null"))
  /\ saveResults (P := MemFS.platform) (js "./contracts")
       {| address := js "0xAB"; written := sample_written |}
       (manifest_state (js "42"))
     = MemFS.writeFileSync (js "contracts/results.json") (VString (js "42"))
         (manifest_state (js "42")).
Proof.
  split.
  - refine (proj1 (@manifest_not_an_object MemFS.state MemFS.platform
                     (js "./contracts") (js "null") _ (manifest_state (js "null"))
                     (manifest_state (js "null")) VNull _ _ _) _);
      reflexivity.
  - refine (proj2 (@manifest_not_an_object MemFS.state MemFS.platform
                     (js "./contracts") (js "42") _ (manifest_state (js "42"))
                     (manifest_state (js "42"))
                     (VNumber (decimal_to_double false 42 0)) _ _ _) _).
    + reflexivity.
    + reflexivity.
    + vm_compute; reflexivity.
    + right; left; eexists; reflexivity.
Defined.

Lemma manifest_array_unchanged_witness :
  saveResults (P := MemFS.platform) (js "./contracts")
    {| address := js "0xAB"; written := sample_written |}
    (manifest_state (js "[]"))
  = MemFS.writeFileSync (js "contracts/results.json") (VString (js "[]"))
      (manifest_state (js "[]")).
Proof.
  apply (@manifest_array_unchanged MemFS.state MemFS.platform
           (js "./contracts") (js "[]")
           {| address := js "0xAB"; written := sample_written |}
           (manifest_state (js "[]")) (manifest_state (js "[]")) []);
    reflexivity.
Defined.

Lemma manifest_fresh_witness :
  saveResults (P := MemFS.platform) (js "./contracts")
    {| address := js "0xAB"; written := sample_written |} proxy_world
  = MemFS.writeFileSync (js "contracts/results.json")
      (JSON_stringify
         (VObject [(js "0xAB",
                    manifest_entry
                      {| address := js "0xAB"; written := sample_written |}
                      (js "2024-01-01T00:00:00.000Z"))]))
      proxy_world.
Proof.
  apply (proj1 (@manifest_fresh MemFS.state MemFS.platform (js "./contracts")
                  {| address := js "0xAB"; written := sample_written |}
                  proxy_world)).
  reflexivity.
Defined.

Lemma upsert_keeps_order_witness :
  exists m',
    upsert (VObject [(js "0xAB", VNull); (js "0xCD", VNull)])
      {| address := js "0xAB"; written := sample_written |} (js "now")
    = Return (VObject m')
    /\ map fst m' = [js "0xAB"; js "0xCD"].
Proof.
  destruct (@upsert_keeps_order [(js "0xAB", VNull); (js "0xCD", VNull)]
              {| address := js "0xAB"; written := sample_written |} (js "now"))
    as (m' & U & _ & K & _).
  - repeat constructor; simpl; intuition discriminate.
  - exists m'. split; [exact U|]. apply (K VNull). reflexivity.
Defined.

(** ** [main] *)

Section Running.

Context {S : Type} {P : Platform S}.

(** A run whose first fetch throws. *)
Lemma main_fetch_failed (config : Config) (s s1 : S) (x : exn) :
  config_address config <> [] ->
  fetch_at config (config_address config) s = (Throw x, s1) ->
  main config (s, []) = (1, (s1, [])).
Proof.
  intros A F. unfold main. rewrite truthy_nonempty by assumption. simpl negb.
  unfold main_body, bind. unfold on_platform at 1. simpl fst.
  unfold fetch_at in F. now rewrite F.
Qed.

(** X21: a run that has no address, or whose first fetch throws, ends with
    status 1 without a write intent; without an address it leaves the state
    as it found it, fetching nothing. *)
Theorem nothing_fetched_nothing_written (config : Config) (s : S) :
  (config_address config = [] -> main config (s, []) = (1, (s, [])))
  /\ (forall s1 x,
        config_address config <> [] ->
        fetch_at config (config_address config) s = (Throw x, s1) ->
        exit_status config s = 1 /\ final_state config s = s1
        /\ intents config s = []).
Proof.
  split.
  - intros E. unfold main. now rewrite E.
  - intros s1 x A F. unfold exit_status, final_state, intents.
    rewrite (@main_fetch_failed config s s1 x A F). auto.
Qed.

(** X22: resolution stops after one hop.  No run issues more than two
    write intents, whatever the fetched records say: an implementation that
    is a proxy itself is not followed. *)
Theorem one_hop (config : Config) (s : S) :
  length (intents config s) <= 2.
Proof.
  unfold intents. destruct (config_address config) as [|c a] eqn:E.
  - unfold main. rewrite E. simpl. lia.
  - assert (A : config_address config <> []) by (rewrite E; discriminate).
    destruct (fetch_at config (config_address config) s) as [[cd|x] s1] eqn:F.
    + destruct (is_proxy cd) eqn:X.
      * rewrite (@main_proxy S P config s s1 cd A F X).
        destruct (write_then_save _ _ _ _ s1) as [[u|x] s2]; [|simpl; lia].
        destruct (fetch_at _ _ s2) as [[impl|x] s3]; simpl; lia.
      * rewrite (@main_plain S P config s s1 cd A F X). simpl. lia.
    + rewrite (@main_fetch_failed config s s1 x A F). simpl. lia.
Qed.

(** X23: when writing the proxy's files or its manifest entry throws, the
    run ends there with status 1: the implementation is not fetched, and
    the state is the one the failed write left. *)
Theorem proxy_write_failed (config : Config) (s s1 s2 : S)
    (cd : ContractData) (x : exn) :
  config_address config <> [] ->
  fetch_at config (config_address config) s = (Return cd, s1) ->
  is_proxy cd = true ->
  write_then_save config (config_address config) cd
    (Some (template (ContractName cd) ++ js "_Proxy")) s1 = (Throw x, s2) ->
  exit_status config s = 1 /\ final_state config s = s2
  /\ intents config s = [proxy_intent config cd].
Proof.
  intros A F X W. unfold exit_status, final_state, intents.
  rewrite (@main_proxy S P config s s1 cd A F X), W. auto.
Qed.

(** X24: a contract without source code is rejected before the file system
    is touched: for a record that is no proxy and whose [SourceCode] is
    empty or missing, the run ends with status 1 in the state the fetch
    left, with no directory made and no manifest written. *)
Theorem unverified_contract (config : Config) (s s1 : S) (cd : ContractData) :
  config_address config <> [] ->
  fetch_at config (config_address config) s = (Return cd, s1) ->
  is_proxy cd = false ->
  truthy_str (SourceCode cd) = false ->
  exit_status config s = 1 /\ final_state config s = s1
  /\ writeContractFiles cd (outputDir config) (ContractName cd) s1
     = (Throw (Error (js "Empty source code")), s1).
Proof.
  intros A F X E.
  assert (W : writeContractFiles cd (outputDir config) (ContractName cd) s1
              = (Throw (Error (js "Empty source code")), s1)).
  { unfold writeContractFiles, bind, lift_result, parseSourceCode.
    now rewrite E. }
  unfold exit_status, final_state.
  rewrite (@main_plain S P config s s1 cd A F X).
  unfold write_then_save, bind. rewrite W. auto.
Qed.

End Running.

Lemma nothing_fetched_nothing_written_witness :
  main (P := MemFS.platform) (sample_config []) (proxy_world, [])
  = (1, (proxy_world, []))
  /\ exit_status (P := MemFS.platform) (sample_config (js "0xNONE")) proxy_world = 1
  /\ final_state (P := MemFS.platform) (sample_config (js "0xNONE")) proxy_world
     = proxy_world
  /\ intents (P := MemFS.platform) (sample_config (js "0xNONE")) proxy_world = [].
Proof.
  split.
  - apply (proj1 (@nothing_fetched_nothing_written MemFS.state MemFS.platform
                    (sample_config []) proxy_world)).
    reflexivity.
  - apply (proj2 (@nothing_fetched_nothing_written MemFS.state MemFS.platform
                    (sample_config (js "0xNONE")) proxy_world) proxy_world
                 (Error (js "API Error: NOTOK - Invalid Address format"))).
    + discriminate.
    + reflexivity.
Defined.

Lemma proxy_write_failed_witness :
  exit_status (P := MemFS.platform) (sample_config (js "0xPROXY")) blocked_world = 1
  /\ final_state (P := MemFS.platform) (sample_config (js "0xPROXY")) blocked_world
     = blocked_world
  /\ intents (P := MemFS.platform) (sample_config (js "0xPROXY")) blocked_world
     = [proxy_intent (sample_config (js "0xPROXY")) proxy_record].
Proof.
  apply (@proxy_write_failed MemFS.state MemFS.platform
           (sample_config (js "0xPROXY")) blocked_world blocked_world
           blocked_world proxy_record (SystemError (js "ENOENT"))).
  - discriminate.
  - reflexivity.
  - reflexivity.
  - vm_compute; reflexivity.
Defined.

Lemma unverified_contract_witness :
  exit_status (P := MemFS.platform) (sample_config (js "0xDEAD")) unverified_world = 1
  /\ final_state (P := MemFS.platform) (sample_config (js "0xDEAD")) unverified_world
     = unverified_world
  /\ writeContractFiles (P := MemFS.platform) unverified_record (js "./contracts")
       (ContractName unverified_record) unverified_world
     = (Throw (Error (js "Empty source code")), unverified_world).
Proof.
  apply (@unverified_contract MemFS.state MemFS.platform
           (sample_config (js "0xDEAD")) unverified_world unverified_world
           unverified_record).
  - discriminate.
  - reflexivity.
  - reflexivity.
  - reflexivity.
Defined.
